(** * Space Invaders engine: collision detection, quadtree and game loops

    A shallow embedding of
      - [src/engine/collision/CollisionSystem.ts] (class [CollisionSystem]
        and the [Quadtree] class that shares the file),
      - [src/engine/GameLoop.ts], [src/systems/GameLoop.ts] and [Timer.ts],
    followed by the properties of these programs.

    A finite JavaScript number is a rational kept in lowest terms, and
    the three non-finite values are kept apart because the source tests
    for them ([Number.isFinite]) and because comparisons with [NaN] are
    false.  Negative zero is identified with zero.  The geometry of the
    collision code and the two [GameLoop] classes compute on these
    rationals exactly; [Timer], whose loop is left or not depending on
    how a subtraction rounds, computes as the machine does: every sum,
    difference and quotient is rounded to the nearest binary64 number,
    a tie going to the even one ([Module Double]). *)

From Stdlib Require Import String.
From Stdlib Require Import ZArith QArith Qminmax Qreduction Qround Qpower Lqa Lia.
From Stdlib Require Import List Bool Arith PeanoNat Permutation.
Import ListNotations.
Close Scope Q_scope.

Set Implicit Arguments.

(* ================================================================== *)
(** ** JavaScript numbers *)
(* ================================================================== *)

Module JS.

Inductive number : Type :=
| NaN
| NegInf
| Fin (q : Q)
| PosInf.

(** An integer literal of the source. *)
Definition num (z : Z) : number := Fin (inject_Z z).

Definition isFinite (a : number) : bool :=
  match a with Fin _ => true | _ => false end.

Definition neg (a : number) : number :=
  match a with
  | NaN => NaN
  | NegInf => PosInf
  | Fin q => Fin (Qred (- q))
  | PosInf => NegInf
  end.

Definition add (a b : number) : number :=
  match a, b with
  | NaN, _ | _, NaN => NaN
  | Fin p, Fin q => Fin (Qred (p + q))
  | PosInf, NegInf | NegInf, PosInf => NaN
  | PosInf, _ | _, PosInf => PosInf
  | NegInf, _ | _, NegInf => NegInf
  end.

Definition sub (a b : number) : number :=
  match a, b with
  | NaN, _ | _, NaN => NaN
  | Fin p, Fin q => Fin (Qred (p - q))
  | PosInf, PosInf | NegInf, NegInf => NaN
  | PosInf, _ | _, NegInf => PosInf
  | NegInf, _ | _, PosInf => NegInf
  end.

(** Sign of a rational as the quotient of two signs needs it. *)
Definition Qsign (q : Q) : comparison := (q ?= 0)%Q.

Definition div (a b : number) : number :=
  match a, b with
  | NaN, _ | _, NaN => NaN
  | Fin p, Fin q =>
      match Qsign q with
      | Eq => match Qsign p with
              | Eq => NaN
              | Gt => PosInf
              | Lt => NegInf
              end
      | _ => Fin (Qred (p / q))
      end
  | Fin _, _ => Fin 0
  | PosInf, Fin q => match Qsign q with Lt => NegInf | _ => PosInf end
  | NegInf, Fin q => match Qsign q with Lt => PosInf | _ => NegInf end
  | _, _ => NaN
  end.

(** [a < b]; false as soon as one side is [NaN]. *)
Definition ltb (a b : number) : bool :=
  match a, b with
  | NaN, _ | _, NaN => false
  | Fin p, Fin q => match (p ?= q)%Q with Lt => true | _ => false end
  | NegInf, NegInf => false
  | NegInf, _ => true
  | _, NegInf => false
  | PosInf, _ => false
  | _, PosInf => true
  end.

Definition gtb (a b : number) : bool := ltb b a.

(** [a <= b]; false as soon as one side is [NaN]. *)
Definition leb (a b : number) : bool :=
  match a, b with
  | NaN, _ | _, NaN => false
  | Fin p, Fin q => match (p ?= q)%Q with Gt => false | _ => true end
  | NegInf, _ => true
  | _, PosInf => true
  | _, NegInf => false
  | PosInf, _ => false
  end.

Definition geb (a b : number) : bool := leb b a.

(** [Math.min] and [Math.max] of two arguments. *)
Definition min (a b : number) : number :=
  match a, b with
  | NaN, _ | _, NaN => NaN
  | _, _ => if ltb b a then b else a
  end.

Definition max (a b : number) : number :=
  match a, b with
  | NaN, _ | _, NaN => NaN
  | _, _ => if ltb a b then b else a
  end.

(** [x || d] on numbers: [0] and [NaN] are falsy. *)
Definition or_default (a d : number) : number :=
  match a with
  | NaN => d
  | Fin q => match Qsign q with Eq => d | _ => a end
  | _ => a
  end.

End JS.

Import JS.

Declare Scope js_scope.
Delimit Scope js_scope with js.
Bind Scope js_scope with number.
Infix "+" := add : js_scope.
Infix "-" := sub : js_scope.
Infix "/" := div : js_scope.
Infix "<?" := ltb : js_scope.
Infix ">?" := gtb : js_scope.
Infix "<=?" := leb : js_scope.
Infix ">=?" := geb : js_scope.

(** ** Binary64 arithmetic

    What [+], [-] and [/] give on two finite numbers: the exact result
    rounded to the nearest number with a significand of 53 bits, a tie
    going to the one whose last bit is 0; below [2 ^ -1022] the last
    place stays at [2 ^ -1074], and a result that rounds to [2 ^ 1024]
    or more is infinite. *)

Module Double.

Local Open Scope Q_scope.

(** [2 ^ k] for any integer [k]. *)
Definition pow2 (k : Z) : Q := (2 # 1) ^ k.

(** The integer part of the binary logarithm of a positive rational. *)
Definition ilog2 (q : Q) : Z :=
  let e := (Z.log2 (Qnum q) - Z.log2 (Zpos (Qden q)))%Z in
  if Qle_bool (pow2 e) q then e else (e - 1)%Z.

(** The nearest integer, a tie going to the even one. *)
Definition rne (q : Q) : Z :=
  let f := Qfloor q in
  match Qcompare (q - inject_Z f) (1 # 2) with
  | Lt => f
  | Gt => (f + 1)%Z
  | Eq => if Z.even f then f else (f + 1)%Z
  end.

(** The exponent of the last place of a positive rational: 52 binary
    places below its leading bit, and never below that of the
    subnormal numbers. *)
Definition exponent (q : Q) : Z := Z.max (ilog2 q - 52) (-1074).

(** The nearest multiple of the last place of a positive rational. *)
Definition nearest (q : Q) : Q :=
  inject_Z (rne (q / pow2 (exponent q))) * pow2 (exponent q).

(** Rounding of the exact result of an operation to a [number]. *)
Definition round (q : Q) : number :=
  match Qcompare q 0 with
  | Eq => Fin 0
  | Gt => if Qle_bool (pow2 1024) (nearest q) then PosInf
          else Fin (Qred (nearest q))
  | Lt => if Qle_bool (pow2 1024) (nearest (- q)) then NegInf
          else Fin (Qred (- nearest (- q)))
  end.


(** [a + b], [a - b] and [a / b] as the machine computes them. *)
Definition fadd (a b : number) : number :=
  match a, b with
  | Fin p, Fin q => round (p + q)
  | _, _ => JS.add a b
  end.

Definition fsub (a b : number) : number :=
  match a, b with
  | Fin p, Fin q => round (p - q)
  | _, _ => JS.sub a b
  end.

Definition fdiv (a b : number) : number :=
  match a, b with
  | Fin p, Fin q =>
      match Qsign q with
      | Eq => JS.div a b
      | _ => round (p / q)
      end
  | _, _ => JS.div a b
  end.

End Double.

(** ** Errors and completions *)

Inductive Error : Type :=
| ErrorMsg (message : string)       (* [new Error(message)] *)
| TypeError (message : string).     (* raised by the runtime *)

(** How a call that changes nothing outside its result ends. *)
Inductive completion (A : Type) : Type :=
| Normal (a : A)
| Abrupt (e : Error).
Arguments Abrupt {A} e.

(** A line written to the console. *)
Inductive LogLine : Type :=
| LogError (label : string) (e : Error)
| LogWarn (label : string).

(* ================================================================== *)
(** ** [CollisionSystem]: narrow-phase AABB test *)
(* ================================================================== *)

Module CollisionSystem.

Record BoundingBox : Type := mkBox {
  x : number;
  y : number;
  width : number;
  height : number
}.

Record Overlap : Type := mkOverlap {
  overlap_x : number;
  overlap_y : number
}.

Record CollisionResult : Type := mkResult {
  hasCollision : bool;
  overlap : option Overlap
}.

(** [validateBoundingBox].  The first test of the source ([!box] and the
    four [typeof] checks) cannot fire on a value of type [BoundingBox],
    whose fields are numbers ([NaN] included); the second one is the
    only one left. *)
Definition validateBoundingBox (box : BoundingBox) : completion unit :=
  if ((width box <? num 0) || (height box <? num 0))%js
  then Abrupt (ErrorMsg "Bounding box dimensions cannot be negative")
  else Normal tt.

Definition detectAABBCollision (boxA boxB : BoundingBox) : CollisionResult :=
  let xOverlap := JS.min (x boxA + width boxA - x boxB)%js
                         (x boxB + width boxB - x boxA)%js in
  let yOverlap := JS.min (y boxA + height boxA - y boxB)%js
                         (y boxB + height boxB - y boxA)%js in
  if ((xOverlap >? num 0) && (yOverlap >? num 0))%js
  then mkResult true (Some (mkOverlap xOverlap yOverlap))
  else mkResult false None.

(** [checkCollision]: validation, detection, and the [catch] that logs
    and rethrows.  The second component is what the call wrote to the
    console. *)
Definition checkCollision (boxA boxB : BoundingBox)
  : completion CollisionResult * list LogLine :=
  let body :=
    match validateBoundingBox boxA with
    | Abrupt e => Abrupt e
    | Normal _ =>
        match validateBoundingBox boxB with
        | Abrupt e => Abrupt e
        | Normal _ =>
            let collision := detectAABBCollision boxA boxB in
            if negb (hasCollision collision)
            then Normal (mkResult false None)
            else Normal (mkResult true (overlap collision))
        end
    end in
  match body with
  | Normal r => (Normal r, [])
  | Abrupt e => (Abrupt e, [LogError "Collision detection error:" e])
  end.

(** Boxes whose four fields are finite, given by their rationals. *)
Definition box (bx b_y bw bh : Q) : BoundingBox :=
  mkBox (Fin bx) (Fin b_y) (Fin bw) (Fin bh).

Definition ibox (bx b_y bw bh : Z) : BoundingBox :=
  mkBox (num bx) (num b_y) (num bw) (num bh).

End CollisionSystem.

(* ================================================================== *)
(** ** [Quadtree]: broad-phase spatial index *)
(* ================================================================== *)

(** How a method that mutates its receiver ends: the receiver as the
    call left it, and the exception when one escaped.  The receiver is
    kept in the second case too, because the source mutates in place:
    what was done before the throw stays done. *)
Inductive outcome (S : Type) : Type :=
| Done (s : S)
| Raised (e : Error) (s : S).

Module Quadtree.

Record Boundary : Type := mkBoundary {
  x : number;
  y : number;
  width : number;
  height : number
}.

Inductive ObjectId : Type :=
| IdString (s : string)
| IdNumber (n : number).

Record QuadtreeObject : Type := mkObject {
  obj_x : number;
  obj_y : number;
  obj_width : number;
  obj_height : number;
  id : option ObjectId
}.

Definition MAX_OBJECTS : nat := 10.
Definition MAX_LEVELS : nat := 5.
Definition MIN_SIZE : number := num 16.

#[local] Unset Elimination Schemes.
Inductive Quadtree : Type := mkQuadtree {
  boundary : Boundary;
  objects : list QuadtreeObject;
  nodes : list Quadtree;
  level : nat
}.
#[local] Set Elimination Schemes.

Definition isValidBoundary (b : Boundary) : bool :=
  ((width b >? num 0) && (height b >? num 0))%js
  && isFinite (x b) && isFinite (y b).

(** [new Quadtree(boundary, level)] *)
Definition new_Quadtree (b : Boundary) (lvl : nat) : completion Quadtree :=
  if negb (isValidBoundary b)
  then Abrupt (ErrorMsg "Invalid boundary provided to Quadtree")
  else Normal (mkQuadtree b [] [] lvl).

Definition set_objects (t : Quadtree) (objs : list QuadtreeObject) : Quadtree :=
  mkQuadtree (boundary t) objs (nodes t) (level t).

Definition set_nodes (t : Quadtree) (ns : list Quadtree) : Quadtree :=
  mkQuadtree (boundary t) (objects t) ns (level t).

(** [clear]: the children are cleared before they are dropped, which
    leaves no trace on the receiver. *)
Definition clear (t : Quadtree) : Quadtree :=
  mkQuadtree (boundary t) [] [] (level t).

(** [a[i] = v] on an array without holes.  [split] assigns the indices
    0, 1, 2, 3 in this order, so an index is never more than one past
    the end; the last clause is there for totality only. *)
Fixpoint array_set {A : Type} (i : nat) (v : A) (l : list A) : list A :=
  match i, l with
  | O, [] => [v]
  | O, _ :: l' => v :: l'
  | S i', a :: l' => a :: array_set i' v l'
  | S _, [] => [v]
  end.

(** [split].  Each child goes through the constructor, whose validation
    can throw after earlier children were assigned. *)
Definition split (t : Quadtree) : outcome Quadtree :=
  let subWidth := (width (boundary t) / num 2)%js in
  let subHeight := (height (boundary t) / num 2)%js in
  let bx := x (boundary t) in
  let b_y := y (boundary t) in
  if ((subWidth <? MIN_SIZE) || (subHeight <? MIN_SIZE))%js then Done t
  else
    match new_Quadtree (mkBoundary (bx + subWidth)%js b_y subWidth subHeight)
                       (level t + 1) with
    | Abrupt e => Raised e t
    | Normal n0 =>
    let t := set_nodes t (array_set 0 n0 (nodes t)) in
    match new_Quadtree (mkBoundary bx b_y subWidth subHeight) (level t + 1) with
    | Abrupt e => Raised e t
    | Normal n1 =>
    let t := set_nodes t (array_set 1 n1 (nodes t)) in
    match new_Quadtree (mkBoundary bx (b_y + subHeight)%js subWidth subHeight)
                       (level t + 1) with
    | Abrupt e => Raised e t
    | Normal n2 =>
    let t := set_nodes t (array_set 2 n2 (nodes t)) in
    match new_Quadtree (mkBoundary (bx + subWidth)%js (b_y + subHeight)%js
                                   subWidth subHeight) (level t + 1) with
    | Abrupt e => Raised e t
    | Normal n3 => Done (set_nodes t (array_set 3 n3 (nodes t)))
    end end end end.

(** [indices.push(i)] under a condition. *)
Definition push_if (c : bool) (i : nat) (indices : list nat) : list nat :=
  if c then indices ++ [i] else indices.

Definition getIndices (t : Quadtree) (object : QuadtreeObject) : list nat :=
  let indices : list nat := [] in
  let verticalMidpoint := (x (boundary t) + width (boundary t) / num 2)%js in
  let horizontalMidpoint := (y (boundary t) + height (boundary t) / num 2)%js in
  let topQuadrant :=
    ((obj_y object <? horizontalMidpoint)
     && (obj_y object + obj_height object <? horizontalMidpoint))%js in
  let bottomQuadrant := (obj_y object >? horizontalMidpoint)%js in
  let indices :=
    if ((obj_x object <? verticalMidpoint)
        && (obj_x object + obj_width object <? verticalMidpoint))%js
    then push_if bottomQuadrant 2 (push_if topQuadrant 1 indices)
    else indices in
  let indices :=
    if (obj_x object >? verticalMidpoint)%js
    then push_if bottomQuadrant 3 (push_if topQuadrant 0 indices)
    else indices in
  indices.

Definition undefined_insert : Error :=
  TypeError "Cannot read properties of undefined (reading 'insert')".

Definition undefined_retrieve : Error :=
  TypeError "Cannot read properties of undefined (reading 'retrieve')".

(** [for (const index of indices) this.nodes[index].insert(object)],
    with [ins] the insertion into a child.  The child is mutated in
    place, which here is the child put back at its index.  [None] is
    [ins] running out of fuel. *)
Fixpoint insert_each (ins : Quadtree -> option (outcome Quadtree))
    (indices : list nat) (ns : list Quadtree)
  : option (outcome (list Quadtree)) :=
  match indices with
  | [] => Some (Done ns)
  | index :: rest =>
      match nth_error ns index with
      | None => Some (Raised undefined_insert ns)
      | Some child =>
          match ins child with
          | None => None
          | Some (Raised e child') => Some (Raised e (array_set index child' ns))
          | Some (Done child') => insert_each ins rest (array_set index child' ns)
          end
      end
  end.

(** The [while] loop of [insert] that hands the objects of a node over
    to its children.  [kept] is [this.objects[0..i)], [rest] is
    [this.objects[i..)]: an object with no index stays ([i++]), the
    others are inserted below and spliced out.  The result is the pair
    of [this.objects] and [this.nodes]. *)
Fixpoint redistribute (ins : QuadtreeObject -> Quadtree -> option (outcome Quadtree))
    (indices_of : QuadtreeObject -> list nat)
    (kept rest : list QuadtreeObject) (ns : list Quadtree)
  : option (outcome (list QuadtreeObject * list Quadtree)) :=
  match rest with
  | [] => Some (Done (kept, ns))
  | o :: rest' =>
      let indices := indices_of o in
      if (0 <? length indices)%nat then
        match insert_each (ins o) indices ns with
        | None => None
        | Some (Raised e ns') => Some (Raised e (kept ++ rest, ns'))
        | Some (Done ns') => redistribute ins indices_of kept rest' ns'
        end
      else redistribute ins indices_of (kept ++ [o]) rest' ns
  end.

(** [insert].  The test [!this.boundary] of the source cannot fire: the
    constructor always sets the field.  The recursion is the source's
    own; [fuel] bounds its depth, and [None] means the bound was hit. *)
Fixpoint insert (fuel : nat) (t : Quadtree) (object : QuadtreeObject)
  : option (outcome Quadtree) :=
  match fuel with
  | O => None
  | S fuel' =>
      if (0 <? length (nodes t))%nat then
        let indices := getIndices t object in
        match insert_each (fun c => insert fuel' c object) indices (nodes t) with
        | None => None
        | Some (Raised e ns) => Some (Raised e (set_nodes t ns))
        | Some (Done ns) => Some (Done (set_nodes t ns))
        end
      else
        let t := set_objects t (objects t ++ [object]) in
        if ((MAX_OBJECTS <? length (objects t))%nat
            && (level t <? MAX_LEVELS)%nat) then
          let after_split :=
            if (length (nodes t) =? 0)%nat then split t else Done t in
          match after_split with
          | Raised e t => Some (Raised e t)
          | Done t =>
              match redistribute (fun o c => insert fuel' c o) (getIndices t)
                                 [] (objects t) (nodes t) with
              | None => None
              | Some (Raised e (objs, ns)) =>
                  Some (Raised e (mkQuadtree (boundary t) objs ns (level t)))
              | Some (Done (objs, ns)) =>
                  Some (Done (mkQuadtree (boundary t) objs ns (level t)))
              end
          end
        else Some (Done t)
  end.

(** [retrieve].  It does not mutate the tree; an exception can only
    come from a child that is not there. *)
Fixpoint retrieve (t : Quadtree) (object : QuadtreeObject)
  : completion (list QuadtreeObject) :=
  let indices := getIndices t object in
  let below := map (fun c => retrieve c object) (nodes t) in
  let returnObjects := objects t in
  if (0 <? length (nodes t))%nat then
    (fix each (indices : list nat) (returnObjects : list QuadtreeObject) :=
       match indices with
       | [] => Normal returnObjects
       | index :: rest =>
           match nth_error below index with
           | None => Abrupt undefined_retrieve
           | Some (Abrupt e) => Abrupt e
           | Some (Normal found) => each rest (returnObjects ++ found)
           end
       end) indices returnObjects
  else Normal returnObjects.

(** The static helper [Quadtree.checkCollision]. *)
Definition checkCollision (objA objB : QuadtreeObject) : bool :=
  negb (((obj_x objA + obj_width objA <? obj_x objB)
         || (obj_x objA >? obj_x objB + obj_width objB)
         || (obj_y objA + obj_height objA <? obj_y objB)
         || (obj_y objA >? obj_y objB + obj_height objB))%js).

(** An object seen as a [BoundingBox] (it has the four fields). *)
Definition as_box (o : QuadtreeObject) : CollisionSystem.BoundingBox :=
  CollisionSystem.mkBox (obj_x o) (obj_y o) (obj_width o) (obj_height o).

(** Every object stored in a tree, the node's own first. *)
Fixpoint all_objects (t : Quadtree) : list QuadtreeObject :=
  objects t ++ flat_map all_objects (nodes t).

(** Objects and boundaries with integer fields. *)
Definition iobj (n : Z) (ox oy ow oh : Z) : QuadtreeObject :=
  mkObject (num ox) (num oy) (num ow) (num oh) (Some (IdNumber (num n))).

Definition ibound (bx b_y bw bh : Z) : Boundary :=
  mkBoundary (num bx) (num b_y) (num bw) (num bh).

(** [insert] of a list of objects, one after the other, stopping at the
    first call that throws. *)
Fixpoint insert_all (fuel : nat) (t : Quadtree) (os : list QuadtreeObject)
  : option (outcome Quadtree) :=
  match os with
  | [] => Some (Done t)
  | o :: os' =>
      match insert fuel t o with
      | Some (Done t') => insert_all fuel t' os'
      | r => r
      end
  end.

End Quadtree.

(* ================================================================== *)
(** ** The host: clock, animation frames, console, callbacks *)
(* ================================================================== *)

(** A call of a callback by one of the loops, kept as a ghost record of
    what a frame did: the argument passed and whether the call threw. *)
Inductive Event : Type :=
| FixedUpdate (dt : number) (threw : bool)
| VariableUpdate (dt : number) (threw : bool)
| Render (interpolation : number) (threw : bool)
| Panic.

(** What the loops act on.  [world] is the state the callbacks work on;
    [clock] gives the successive readings of [performance.now()];
    [pending] holds the handles of the animation frames requested and
    neither fired nor cancelled. *)
Record Host (W : Type) : Type := mkHost {
  world : W;
  clock : nat -> number;
  reads : nat;
  pending : list nat;
  next_handle : nat;
  console : list LogLine;
  trace : list Event
}.

(** A callback: it takes its argument, works on the world, and returns
    or throws. *)
Definition callback (A W : Type) : Type := A -> W -> outcome W.

Section HostOps.
Context {W : Type}.

Definition set_world (h : Host W) (w : W) : Host W :=
  mkHost w (clock h) (reads h) (pending h) (next_handle h) (console h) (trace h).

Definition log (l : LogLine) (h : Host W) : Host W :=
  mkHost (world h) (clock h) (reads h) (pending h) (next_handle h)
         (console h ++ [l]) (trace h).

Definition record (ev : Event) (h : Host W) : Host W :=
  mkHost (world h) (clock h) (reads h) (pending h) (next_handle h)
         (console h) (trace h ++ [ev]).

(** [performance.now()] *)
Definition performance_now (h : Host W) : number * Host W :=
  (clock h (reads h),
   mkHost (world h) (clock h) (S (reads h)) (pending h) (next_handle h)
          (console h) (trace h)).

(** [requestAnimationFrame(cb)]: a fresh handle, now pending. *)
Definition requestAnimationFrame (h : Host W) : nat * Host W :=
  (next_handle h,
   mkHost (world h) (clock h) (reads h) (pending h ++ [next_handle h])
          (S (next_handle h)) (console h) (trace h)).

(** [cancelAnimationFrame(id)] *)
Definition cancelAnimationFrame (id : nat) (h : Host W) : Host W :=
  mkHost (world h) (clock h) (reads h)
         (filter (fun k => negb (k =? id)%nat) (pending h))
         (next_handle h) (console h) (trace h).

(** Call a callback and record the call. *)
Definition invoke {A : Type} (ev : bool -> Event) (cb : callback A W) (a : A)
    (h : Host W) : option Error * Host W :=
  match cb a (world h) with
  | Done w => (None, record (ev false) (set_world h w))
  | Raised e w => (Some e, record (ev true) (set_world h w))
  end.

End HostOps.

(* ================================================================== *)
(** ** [src/engine/GameLoop.ts] *)
(* ================================================================== *)

Module EngineGameLoop.

Definition DEFAULT_FPS : number := num 60.
Definition DEFAULT_FRAME_TIME : number := (num 1000 / DEFAULT_FPS)%js.
Definition MAX_UPDATES_PER_FRAME : nat := 10.

Record GameLoopStats : Type := mkStats {
  stats_fps : number;
  stats_frameTime : number;
  stats_updates : number;
  stats_renders : number
}.

Record GameLoopCallbacks (W : Type) : Type := mkCallbacks {
  update : callback number W;
  render : callback number W;
  onPanic : option (callback unit W);
  onStats : option (callback GameLoopStats W)
}.

Record GameLoopOptions : Type := mkOptions {
  opt_fps : option number;
  opt_enableStats : option bool;
  opt_statsSampleSize : option number
}.

Record GameLoop (W : Type) : Type := mkGameLoop {
  fps : number;
  frameTime : number;
  running : bool;
  rafId : nat;
  lastTime : number;
  accumulator : number;
  statsEnabled : bool;
  statsSampleSize : number;
  frameTimeHistory : list number;
  stats : GameLoopStats;
  callbacks : GameLoopCallbacks W
}.

Section Methods.
Context {W : Type}.

(** A loop together with the host it runs on. *)
Definition System : Type := GameLoop W * Host W.

(** [options.x || d] for an optional number. *)
Definition number_or (o : option number) (d : number) : number :=
  match o with None => d | Some a => or_default a d end.

(** The constructor.  [validateCallbacks] tests that the two mandatory
    callbacks are functions, which their type says. *)
Definition new_GameLoop (cbs : GameLoopCallbacks W) (options : GameLoopOptions)
  : GameLoop W :=
  let the_fps := number_or (opt_fps options) DEFAULT_FPS in
  mkGameLoop the_fps (num 1000 / the_fps)%js false 0 (num 0) (num 0)
             (match opt_enableStats options with Some b => b | None => false end)
             (number_or (opt_statsSampleSize options) (num 60))
             [] (mkStats (num 0) (num 0) (num 0) (num 0)) cbs.

Definition set_running (g : GameLoop W) (b : bool) : GameLoop W :=
  mkGameLoop (fps g) (frameTime g) b (rafId g) (lastTime g) (accumulator g)
             (statsEnabled g) (statsSampleSize g) (frameTimeHistory g)
             (stats g) (callbacks g).

Definition set_rafId (g : GameLoop W) (id : nat) : GameLoop W :=
  mkGameLoop (fps g) (frameTime g) (running g) id (lastTime g) (accumulator g)
             (statsEnabled g) (statsSampleSize g) (frameTimeHistory g)
             (stats g) (callbacks g).

Definition set_lastTime (g : GameLoop W) (t : number) : GameLoop W :=
  mkGameLoop (fps g) (frameTime g) (running g) (rafId g) t (accumulator g)
             (statsEnabled g) (statsSampleSize g) (frameTimeHistory g)
             (stats g) (callbacks g).

Definition set_accumulator (g : GameLoop W) (a : number) : GameLoop W :=
  mkGameLoop (fps g) (frameTime g) (running g) (rafId g) (lastTime g) a
             (statsEnabled g) (statsSampleSize g) (frameTimeHistory g)
             (stats g) (callbacks g).

Definition set_stats (g : GameLoop W) (hist : list number) (s : GameLoopStats)
  : GameLoop W :=
  mkGameLoop (fps g) (frameTime g) (running g) (rafId g) (lastTime g)
             (accumulator g) (statsEnabled g) (statsSampleSize g) hist s
             (callbacks g).

(** [start] *)
Definition start (s : System) : System :=
  let (g, h) := s in
  if running g then s
  else
    let g := set_running g true in
    let (now, h) := performance_now h in
    let g := set_lastTime g now in
    let (id, h) := requestAnimationFrame h in
    (set_rafId g id, h).

(** [stop] *)
Definition stop (s : System) : System :=
  let (g, h) := s in
  if negb (running g) then s
  else (set_running g false, cancelAnimationFrame (rafId g) h).

(** [updateStats]; an exception of [onStats] is not caught. *)
Definition updateStats (deltaTime : number) (s : System) : outcome System :=
  let (g, h) := s in
  let hist := frameTimeHistory g ++ [deltaTime] in
  let hist :=
    if (num (Z.of_nat (length hist)) >? statsSampleSize g)%js
    then tl hist else hist in
  let averageFrameTime :=
    (fold_left add hist (num 0) / num (Z.of_nat (length hist)))%js in
  let st := mkStats (num 1000 / averageFrameTime)%js averageFrameTime
                    (stats_updates (stats g) + num 1)%js
                    (stats_renders (stats g) + num 1)%js in
  let g := set_stats g hist st in
  match onStats (callbacks g) with
  | None => Done (g, h)
  | Some cb =>
      match cb st (world h) with
      | Done w => Done (g, set_world h w)
      | Raised e w => Raised e (g, set_world h w)
      end
  end.

(** [handlePanic]; an exception of [onPanic] is not caught, and the
    warning is then not written. *)
Definition handlePanic (s : System) : outcome System :=
  let (g, h) := s in
  let h := record Panic h in
  let warn := log (LogWarn "Game loop running slowly, skipping frames") in
  match onPanic (callbacks g) with
  | None => Done (g, warn h)
  | Some cb =>
      match cb tt (world h) with
      | Done w => Done (g, warn (set_world h w))
      | Raised e w => Raised e (g, set_world h w)
      end
  end.

(** How the [while] loop of [loop] ends: by its condition, with the
    count of updates made, or by the [return] of its [catch]. *)
Inductive drained : Type :=
| Exhausted (updates : nat) (s : System)
| Stopped (s : System).

(** The [while] loop of [loop].  Its condition holds at most
    [MAX_UPDATES_PER_FRAME - updates] times in a row, which is the
    [budget] the loop is run with; with less, [None]. *)
Fixpoint drain (budget : nat) (updates : nat) (s : System) : option drained :=
  let (g, h) := s in
  if ((accumulator g >=? frameTime g)%js
      && (updates <? MAX_UPDATES_PER_FRAME)%nat) then
    match budget with
    | O => None
    | S budget' =>
        match invoke (FixedUpdate (frameTime g)) (update (callbacks g)) (frameTime g) h with
        | (None, h) =>
            let g := set_accumulator g (accumulator g - frameTime g)%js in
            drain budget' (S updates) (g, h)
        | (Some e, h) =>
            let h := log (LogError "Error in update callback:" e) h in
            Some (Stopped (stop (g, h)))
        end
    end
  else Some (Exhausted updates s).

(** [loop(currentTime)].  [None] cannot be the result (see [drain]). *)
Definition loop (currentTime : number) (s : System) : option (outcome System) :=
  let (g, h) := s in
  if negb (running g) then Some (Done s)
  else
    let deltaTime := (currentTime - lastTime g)%js in
    let g := set_lastTime g currentTime in
    match (if statsEnabled g then updateStats deltaTime (g, h) else Done (g, h)) with
    | Raised e s => Some (Raised e s)
    | Done (g, h) =>
        let g := set_accumulator g (accumulator g + deltaTime)%js in
        match drain MAX_UPDATES_PER_FRAME 0 (g, h) with
        | None => None
        | Some (Stopped s) => Some (Done s)
        | Some (Exhausted updates s) =>
            match (if (MAX_UPDATES_PER_FRAME <=? updates)%nat
                   then match handlePanic s with
                        | Raised e s => Raised e s
                        | Done (g, h) => Done (set_accumulator g (num 0), h)
                        end
                   else Done s) with
            | Raised e s => Some (Raised e s)
            | Done (g, h) =>
                let interpolation := (accumulator g / frameTime g)%js in
                match invoke (Render interpolation) (render (callbacks g)) interpolation h with
                | (Some e, h) =>
                    let h := log (LogError "Error in render callback:" e) h in
                    Some (Done (stop (g, h)))
                | (None, h) =>
                    let (id, h) := requestAnimationFrame h in
                    Some (Done (set_rafId g id, h))
                end
            end
        end
    end.

(** The host fires the frame the loop asked for: the handle leaves the
    pending ones and [loop] runs with the frame's timestamp. *)
Definition animation_frame (timestamp : number) (s : System)
  : option (outcome System) :=
  let (g, h) := s in
  if existsb (Nat.eqb (rafId g)) (pending h)
  then loop timestamp (g, cancelAnimationFrame (rafId g) h)
  else Some (Done s).

End Methods.
End EngineGameLoop.

(* ================================================================== *)
(** ** [src/systems/GameLoop.ts] *)
(* ================================================================== *)

Module SystemsGameLoop.

(** The two [readonly] fields, which every instance initialises to the
    same constants. *)
Definition fixedTimeStep : number := (num 1000 / num 60)%js.
Definition maxDeltaTime : number := num 100.

Record GameLoop (W : Type) : Type := mkGameLoop {
  lastTime : number;
  accumulator : number;
  isRunning : bool;
  animationFrameId : option nat;
  updateCallbacks : list (callback number W);
  fixedUpdateCallbacks : list (callback number W);
  renderCallbacks : list (callback number W)
}.

Section Methods.
Context {W : Type}.

Definition System : Type := GameLoop W * Host W.

Definition new_GameLoop : GameLoop W :=
  mkGameLoop (num 0) (num 0) false None [] [] [].

Definition set_timing (g : GameLoop W) (last acc : number) : GameLoop W :=
  mkGameLoop last acc (isRunning g) (animationFrameId g) (updateCallbacks g)
             (fixedUpdateCallbacks g) (renderCallbacks g).

Definition set_isRunning (g : GameLoop W) (b : bool) : GameLoop W :=
  mkGameLoop (lastTime g) (accumulator g) b (animationFrameId g)
             (updateCallbacks g) (fixedUpdateCallbacks g) (renderCallbacks g).

Definition set_animationFrameId (g : GameLoop W) (id : option nat) : GameLoop W :=
  mkGameLoop (lastTime g) (accumulator g) (isRunning g) id
             (updateCallbacks g) (fixedUpdateCallbacks g) (renderCallbacks g).

Definition onUpdate (cb : callback number W) (g : GameLoop W) : GameLoop W :=
  mkGameLoop (lastTime g) (accumulator g) (isRunning g) (animationFrameId g)
             (updateCallbacks g ++ [cb]) (fixedUpdateCallbacks g)
             (renderCallbacks g).

Definition onFixedUpdate (cb : callback number W) (g : GameLoop W) : GameLoop W :=
  mkGameLoop (lastTime g) (accumulator g) (isRunning g) (animationFrameId g)
             (updateCallbacks g) (fixedUpdateCallbacks g ++ [cb])
             (renderCallbacks g).

Definition onRender (cb : callback number W) (g : GameLoop W) : GameLoop W :=
  mkGameLoop (lastTime g) (accumulator g) (isRunning g) (animationFrameId g)
             (updateCallbacks g) (fixedUpdateCallbacks g)
             (renderCallbacks g ++ [cb]).

(** [cbs.forEach(cb => { try { cb(arg) } catch (e) { console.error(label, e) } })] *)
Fixpoint forEach_caught (label : string) (ev : bool -> Event)
    (cbs : list (callback number W)) (arg : number) (h : Host W) : Host W :=
  match cbs with
  | [] => h
  | cb :: rest =>
      match invoke ev cb arg h with
      | (None, h) => forEach_caught label ev rest arg h
      | (Some e, h) => forEach_caught label ev rest arg (log (LogError label e) h)
      end
  end.

(** The [while] loop of [tick]; [None] when [fuel] iterations were not
    enough to leave it. *)
Fixpoint fixed_updates (fuel : nat) (s : System) : option System :=
  let (g, h) := s in
  if (accumulator g >=? fixedTimeStep)%js then
    match fuel with
    | O => None
    | S fuel' =>
        let h := forEach_caught "Error in fixed update callback:"
                   (FixedUpdate fixedTimeStep) (fixedUpdateCallbacks g)
                   fixedTimeStep h in
        let g := set_timing g (lastTime g) (accumulator g - fixedTimeStep)%js in
        fixed_updates fuel' (g, h)
    end
  else Some s.

(** [tick] *)
Definition tick (fuel : nat) (s : System) : option System :=
  let (g, h) := s in
  if negb (isRunning g) then Some s
  else
    let (currentTime, h) := performance_now h in
    let deltaTime := (currentTime - lastTime g)%js in
    let g := set_timing g currentTime (accumulator g) in
    let deltaTime := JS.min deltaTime maxDeltaTime in
    let g := set_timing g (lastTime g) (accumulator g + deltaTime)%js in
    let h := forEach_caught "Error in update callback:" (VariableUpdate deltaTime)
               (updateCallbacks g) deltaTime h in
    match fixed_updates fuel (g, h) with
    | None => None
    | Some (g, h) =>
        let alpha := (accumulator g / fixedTimeStep)%js in
        let h := forEach_caught "Error in render callback:" (Render alpha)
                   (renderCallbacks g) alpha h in
        let (id, h) := requestAnimationFrame h in
        Some (set_animationFrameId g (Some id), h)
    end.

(** [start] *)
Definition start (fuel : nat) (s : System) : option (outcome System) :=
  let (g, h) := s in
  if isRunning g then Some (Raised (ErrorMsg "Game loop is already running") s)
  else
    let g := set_isRunning g true in
    let (now, h) := performance_now h in
    let g := set_timing g now (num 0) in
    match tick fuel (g, h) with
    | None => None
    | Some s => Some (Done s)
    end.

(** [stop] *)
Definition stop (s : System) : System :=
  let (g, h) := s in
  let g := set_isRunning g false in
  match animationFrameId g with
  | Some id => (set_animationFrameId g None, cancelAnimationFrame id h)
  | None => (g, h)
  end.

(** The host fires the requested frame. *)
Definition animation_frame (fuel : nat) (s : System) : option System :=
  let (g, h) := s in
  match animationFrameId g with
  | Some id =>
      if existsb (Nat.eqb id) (pending h)
      then tick fuel (g, cancelAnimationFrame id h)
      else Some s
  | None => Some s
  end.

End Methods.
End SystemsGameLoop.

(* ================================================================== *)
(** ** [Timer.ts] *)
(* ================================================================== *)

Module Timer.

Definition DEFAULT_FIXED_TIMESTEP : number := Double.fdiv (num 1000) (num 60).
Definition MAX_DELTA_TIME : number := Double.fdiv (num 1000) (num 30).
Definition MIN_DELTA_TIME : number := Double.fdiv (num 1000) (num 120).

Record TimerConfig : Type := mkConfig {
  cfg_fixedTimestep : option number;
  cfg_maxDeltaTime : option number;
  cfg_startPaused : option bool
}.

Record Timer : Type := mkTimer {
  lastTime : number;
  accumulator : number;
  fixedTimestep : number;
  maxDeltaTime : number;
  isPaused : bool;
  rafId : option nat
}.

(** [x ?? d] *)
Definition nullish {A : Type} (o : option A) (d : A) : A :=
  match o with Some a => a | None => d end.

Definition new_Timer (config : TimerConfig) : Timer :=
  mkTimer (num 0) (num 0)
          (nullish (cfg_fixedTimestep config) DEFAULT_FIXED_TIMESTEP)
          (nullish (cfg_maxDeltaTime config) MAX_DELTA_TIME)
          (nullish (cfg_startPaused config) false)
          None.

Definition set_timing (t : Timer) (last acc : number) : Timer :=
  mkTimer last acc (fixedTimestep t) (maxDeltaTime t) (isPaused t) (rafId t).

Definition set_isPaused (t : Timer) (b : bool) : Timer :=
  mkTimer (lastTime t) (accumulator t) (fixedTimestep t) (maxDeltaTime t) b
          (rafId t).

Definition set_rafId (t : Timer) (id : option nat) : Timer :=
  mkTimer (lastTime t) (accumulator t) (fixedTimestep t) (maxDeltaTime t)
          (isPaused t) id.

Section Methods.
Context {W : Type}.

Definition System : Type := Timer * Host W.

(** The two emitters have an empty body in the source; the call is
    recorded. *)
Definition emitFixedUpdate (deltaTime : number) (h : Host W) : Host W :=
  record (FixedUpdate deltaTime false) h.

Definition emitRenderUpdate (interpolationFactor : number) (h : Host W) : Host W :=
  record (Render interpolationFactor false) h.

(** The [while] loop of [tick]; [None] when [fuel] iterations were not
    enough to leave it. *)
Fixpoint fixed_updates (fuel : nat) (s : System) : option System :=
  let (t, h) := s in
  if (accumulator t >=? fixedTimestep t)%js then
    match fuel with
    | O => None
    | S fuel' =>
        let h := emitFixedUpdate (fixedTimestep t) h in
        let t := set_timing t (lastTime t)
                   (Double.fsub (accumulator t) (fixedTimestep t)) in
        fixed_updates fuel' (t, h)
    end
  else Some s.

(** [tick] *)
Definition tick (fuel : nat) (s : System) : option System :=
  let (t, h) := s in
  let (id, h) := requestAnimationFrame h in
  let t := set_rafId t (Some id) in
  if isPaused t then Some (t, h)
  else
    let (currentTime, h) := performance_now h in
    let deltaTime := Double.fsub currentTime (lastTime t) in
    let t := set_timing t currentTime (accumulator t) in
    let deltaTime := JS.min deltaTime (maxDeltaTime t) in
    let deltaTime := JS.max deltaTime MIN_DELTA_TIME in
    let t := set_timing t (lastTime t) (Double.fadd (accumulator t) deltaTime) in
    match fixed_updates fuel (t, h) with
    | None => None
    | Some (t, h) =>
        let alpha := Double.fdiv (accumulator t) (fixedTimestep t) in
        Some (t, emitRenderUpdate alpha h)
    end.

(** [start] *)
Definition start (fuel : nat) (s : System) : option (outcome System) :=
  let (t, h) := s in
  match rafId t with
  | Some _ => Some (Raised (ErrorMsg "Timer is already running") s)
  | None =>
      let (now, h) := performance_now h in
      let t := set_timing t now (accumulator t) in
      let t := set_isPaused t false in
      match tick fuel (t, h) with
      | None => None
      | Some s => Some (Done s)
      end
  end.

(** [stop] *)
Definition stop (s : System) : System :=
  let (t, h) := s in
  let (t, h) :=
    match rafId t with
    | Some id => (set_rafId t None, cancelAnimationFrame id h)
    | None => (t, h)
    end in
  let t := set_isPaused t true in
  (set_timing t (lastTime t) (num 0), h).

Definition pause (t : Timer) : Timer := set_isPaused t true.

Definition resume (s : System) : System :=
  let (t, h) := s in
  if isPaused t then
    let t := set_isPaused t false in
    let (now, h) := performance_now h in
    (set_timing t now (accumulator t), h)
  else s.

End Methods.

Definition getFixedTimestep (t : Timer) : number := fixedTimestep t.

Definition setFixedTimestep (timestep : number) (t : Timer) : outcome Timer :=
  if (timestep <=? num 0)%js
  then Raised (ErrorMsg "Fixed timestep must be greater than 0") t
  else Done (mkTimer (lastTime t) (accumulator t) timestep (maxDeltaTime t)
                     (isPaused t) (rafId t)).

Definition isRunning (t : Timer) : bool :=
  match rafId t with Some _ => negb (isPaused t) | None => false end.

End Timer.

(* ================================================================== *)
(** ** Vocabulary of the statements *)
(* ================================================================== *)

(** Rectangles with finite, exact coordinates: the boxes a game really
    hands over. *)
Module Rect.

Record t : Type := make {
  rx : Q;
  ry : Q;
  rw : Q;
  rh : Q
}.

Definition to_box (r : t) : CollisionSystem.BoundingBox :=
  CollisionSystem.mkBox (Fin (rx r)) (Fin (ry r)) (Fin (rw r)) (Fin (rh r)).

Definition to_object (r : t) (i : option Quadtree.ObjectId) : Quadtree.QuadtreeObject :=
  Quadtree.mkObject (Fin (rx r)) (Fin (ry r)) (Fin (rw r)) (Fin (rh r)) i.

Definition nonneg (r : t) : Prop := (0 <= rw r /\ 0 <= rh r)%Q.

(** The closed extents meet along the x axis, resp. the y axis. *)
Definition meet_x (a b : t) : Prop :=
  (rx a <= rx b + rw b /\ rx b <= rx a + rw a)%Q.

Definition meet_y (a b : t) : Prop :=
  (ry a <= ry b + rh b /\ ry b <= ry a + rh a)%Q.

(** One box ends exactly where the other starts. *)
Definition abut_x (a b : t) : Prop :=
  (rx a + rw a == rx b \/ rx b + rw b == rx a)%Q.

Definition abut_y (a b : t) : Prop :=
  (ry a + rh a == ry b \/ ry b + rh b == ry a)%Q.

(** The two boxes touch along an edge or at a corner. *)
Definition touching (a b : t) : Prop :=
  (abut_x a b /\ meet_y a b) \/ (abut_y a b /\ meet_x a b).

End Rect.

(** What the comparisons of the source say about a number. *)
Definition negative (a : number) : Prop :=
  match a with
  | Fin q => (q < 0)%Q
  | NegInf => True
  | _ => False
  end.

Definition positive (a : number) : Prop :=
  match a with
  | Fin q => (0 < q)%Q
  | PosInf => True
  | _ => False
  end.

Definition finite (a : number) : Prop := exists q, a = Fin q.

(** Words for what [Quadtree.insert] does with the objects of a node. *)
Module Placement.
Import Quadtree.

(** The object has no index at this node: it stays where it is. *)
Definition stays (t : Quadtree) (o : QuadtreeObject) : bool :=
  match getIndices t o with [] => true | _ => false end.

(** The object has the single index [i] at this node. *)
Definition goes_to (t : Quadtree) (i : nat) (o : QuadtreeObject) : bool :=
  match getIndices t o with [j] => (j =? i)%nat | _ => false end.

(** The four equal quadrants of a boundary, in the order of [split]:
    top right, top left, bottom left, bottom right. *)
Definition quadrant (b : Boundary) (i : nat) : Boundary :=
  let subWidth := (width b / num 2)%js in
  let subHeight := (height b / num 2)%js in
  match i with
  | 0 => mkBoundary (x b + subWidth)%js (y b) subWidth subHeight
  | 1 => mkBoundary (x b) (y b) subWidth subHeight
  | 2 => mkBoundary (x b) (y b + subHeight)%js subWidth subHeight
  | _ => mkBoundary (x b + subWidth)%js (y b + subHeight)%js subWidth subHeight
  end.

(** The least side that can be halved [k] times with every half at
    least [MIN_SIZE]. *)
Fixpoint min_side (k : nat) : Q :=
  match k with
  | O => 16%Q
  | S k' => (2 * min_side k')%Q
  end.

(** A node with a finite boundary that is large enough for every split
    between its level and [MAX_LEVELS] to pass the [MIN_SIZE] test. *)
Definition roomy (t : Quadtree) : Prop :=
  exists bx b_y w h : Q,
    boundary t = mkBoundary (Fin bx) (Fin b_y) (Fin w) (Fin h)
    /\ (min_side (MAX_LEVELS - level t) <= w)%Q
    /\ (min_side (MAX_LEVELS - level t) <= h)%Q.

(** [t'] is [t] split in four around the objects of [t] and [o]: the
    objects without an index stay at the node, in their order, and
    child [i] covers quadrant [i] and stores exactly the objects whose
    index is [i]. *)
Definition split_around (t : Quadtree) (o : QuadtreeObject) (t' : Quadtree) : Prop :=
  boundary t' = boundary t
  /\ level t' = level t
  /\ objects t' = filter (stays t) (objects t ++ [o])
  /\ length (nodes t') = 4
  /\ forall i, i < 4 ->
       exists c, nth_error (nodes t') i = Some c
                 /\ boundary c = quadrant (boundary t) i
                 /\ level c = level t + 1
                 /\ Permutation (all_objects c)
                                (filter (goes_to t i) (objects t ++ [o])).

(** The leaf with nothing in it that [split] makes for quadrant [i]. *)
Definition fresh_child (t : Quadtree) (i : nat) : Quadtree :=
  mkQuadtree (quadrant (boundary t) i) [] [] (level t + 1).

(** A leaf at most [k] levels above [MAX_LEVELS] with room below it. *)
Definition fillable (k : nat) (c : Quadtree) : Prop :=
  nodes c = [] /\ roomy c /\ MAX_LEVELS - level c <= k.

End Placement.

(** What a frame did, read off the recorded calls. *)
Definition threw (ev : Event) : bool :=
  match ev with
  | FixedUpdate _ b | VariableUpdate _ b | Render _ b => b
  | Panic => false
  end.

Definition is_fixed_update (ev : Event) : bool :=
  match ev with FixedUpdate _ _ => true | _ => false end.

Definition fixed_updates_in (evs : list Event) : nat :=
  length (filter is_fixed_update evs).


(** The state a call left behind, however it ended. *)
Definition state_of {S : Type} (r : outcome S) : S :=
  match r with Done s | Raised _ s => s end.

(** [n] steps of duration [step]. *)
Fixpoint times (n : nat) (step : Q) : Q :=
  match n with
  | O => 0%Q
  | S n' => (step + times n' step)%Q
  end.

(** The fixed step of [SystemsGameLoop], as a rational. *)
Definition sixtieth : Q := (50 # 3)%Q.



(** Words for what one frame of the engine's loop does. *)
Module EngineFrames.
Import EngineGameLoop.

Section Frames.
Context {W : Type}.

(** What [drain] leaves of the host besides the world and the trace. *)
Definition same_host (h h' : Host W) : Prop :=
  clock h' = clock h /\ reads h' = reads h /\ pending h' = pending h
  /\ next_handle h' = next_handle h.

(** What the [while] loop of [loop] has done when it is left. *)
Definition drain_post (updates : nat) (g : GameLoop W) (h : Host W)
    (r : drained) : Prop :=
  match r with
  | Exhausted n (g', h') =>
      exists m,
        n = updates + m
        /\ (updates <= MAX_UPDATES_PER_FRAME -> n <= MAX_UPDATES_PER_FRAME)
        /\ trace h' = trace h ++ repeat (FixedUpdate (frameTime g) false) m
        /\ console h' = console h
        /\ same_host h h'
        /\ g' = set_accumulator g (accumulator g')
        /\ ((accumulator g' >=? frameTime g)%js = false
            \/ MAX_UPDATES_PER_FRAME <= n)
        /\ (forall a f, accumulator g = Fin a -> frameTime g = Fin f ->
              exists a', accumulator g' = Fin a'
                         /\ ((0 < f)%Q -> (0 <= a)%Q -> (0 <= a')%Q))
  | Stopped (g', h') =>
      exists m e,
        updates + m < MAX_UPDATES_PER_FRAME
        /\ trace h' = trace h ++ repeat (FixedUpdate (frameTime g) false) m
                              ++ [FixedUpdate (frameTime g) true]
        /\ console h' = console h ++ [LogError "Error in update callback:" e]
        /\ clock h' = clock h /\ reads h' = reads h
        /\ next_handle h' = next_handle h
        /\ (running g = true ->
            running g' = false
            /\ pending h'
               = filter (fun k => negb (k =? rafId g)) (pending h))
  end.

Definition warning : LogLine := LogWarn "Game loop running slowly, skipping frames".

(** The events and console lines of the panic handler after [m] updates. *)
Definition panic_events (m : nat) : list Event :=
  if MAX_UPDATES_PER_FRAME <=? m then [Panic] else [].

Definition panic_lines (m : nat) : list LogLine :=
  if MAX_UPDATES_PER_FRAME <=? m then [warning] else [].

(** The accumulator with which [render] is called after [m] updates. *)
Definition at_render (ts : number) (g g' : GameLoop W) (m : nat)
    (alpha : number) : Prop :=
  alpha = (accumulator g' / frameTime g)%js
  /\ (m = MAX_UPDATES_PER_FRAME -> accumulator g' = num 0)
  /\ (m < MAX_UPDATES_PER_FRAME -> (accumulator g' >=? frameTime g)%js = false)
  /\ (forall a f l c,
        accumulator g = Fin a -> frameTime g = Fin f -> lastTime g = Fin l ->
        ts = Fin c ->
        exists a', accumulator g' = Fin a'
                   /\ ((0 < f)%Q -> (0 <= a)%Q -> (l <= c)%Q -> (0 <= a')%Q)).

(** The ways a frame of a running loop can go. *)
Inductive frame (ts : number) (g : GameLoop W) (h : Host W)
  : outcome (@System W) -> list Event -> list LogLine -> Prop :=
| stats_threw e s :
    frame ts g h (Raised e s) [] []
| update_threw e g' h' m :
    m < MAX_UPDATES_PER_FRAME ->
    running g' = false ->
    pending h' = filter (fun k => negb (k =? rafId g)) (pending h) ->
    next_handle h' = next_handle h ->
    frame ts g h (Done (g', h'))
          (repeat (FixedUpdate (frameTime g) false) m
           ++ [FixedUpdate (frameTime g) true])
          [LogError "Error in update callback:" e]
| panic_threw e s cb w w' :
    onPanic (callbacks g) = Some cb ->
    cb tt w = Raised e w' ->
    frame ts g h (Raised e s)
          (repeat (FixedUpdate (frameTime g) false) MAX_UPDATES_PER_FRAME
           ++ [Panic])
          []
| render_threw e g' h' m alpha :
    m <= MAX_UPDATES_PER_FRAME ->
    at_render ts g g' m alpha ->
    running g' = false ->
    pending h' = filter (fun k => negb (k =? rafId g)) (pending h) ->
    next_handle h' = next_handle h ->
    frame ts g h (Done (g', h'))
          (repeat (FixedUpdate (frameTime g) false) m ++ panic_events m
           ++ [Render alpha true])
          (panic_lines m ++ [LogError "Error in render callback:" e])
| completed g' h' m alpha :
    m <= MAX_UPDATES_PER_FRAME ->
    at_render ts g g' m alpha ->
    running g' = true ->
    rafId g' = next_handle h ->
    pending h' = pending h ++ [next_handle h] ->
    frame ts g h (Done (g', h'))
          (repeat (FixedUpdate (frameTime g) false) m ++ panic_events m
           ++ [Render alpha false])
          (panic_lines m).

End Frames.
End EngineFrames.

(** Concrete loops for the closed statements.  The callbacks work on
    a world with nothing in it. *)
Module LoopScenes.

(** A host that has done nothing yet, with the given clock. *)
Definition fresh_host (clock : nat -> number) : Host unit :=
  mkHost tt clock 0 [] 1 [] [].

(** A clock that advances by [step] milliseconds at each reading. *)
Definition ticking (step : Z) : nat -> number :=
  fun n => num (step * Z.of_nat n).

Definition quiet : callback number unit := fun _ w => Done w.

Definition failing : callback number unit :=
  fun _ w => Raised (ErrorMsg "boom") w.

(** The engine's loop with callbacks that do nothing, at 60 updates per
    second. *)
Definition engine : @EngineGameLoop.System unit :=
  (EngineGameLoop.new_GameLoop
     (EngineGameLoop.mkCallbacks quiet quiet None None)
     (EngineGameLoop.mkOptions None None None),
   fresh_host (ticking 20)).

(** The engine's loop with an update callback that throws. *)
Definition failing_engine : @EngineGameLoop.System unit :=
  (EngineGameLoop.new_GameLoop
     (EngineGameLoop.mkCallbacks failing quiet None None)
     (EngineGameLoop.mkOptions None None None),
   fresh_host (ticking 20)).

(** The systems' loop with one fixed-update callback, which throws. *)
Definition systems : @SystemsGameLoop.System unit :=
  (SystemsGameLoop.onFixedUpdate failing SystemsGameLoop.new_GameLoop,
   fresh_host (ticking 20)).

(** The same loop once started: it has run its first tick. *)
Definition started_systems : @SystemsGameLoop.System unit :=
  match SystemsGameLoop.start 7 systems with
  | Some (Done s) => s
  | _ => systems
  end.


(** A timer with the default configuration. *)
Definition plain_timer : @Timer.System unit :=
  (Timer.new_Timer (Timer.mkConfig None None None), fresh_host (ticking 20)).


(** A timer configured with a fixed step of 2^-60 milliseconds. *)
Definition tiny_timer : @Timer.System unit :=
  (Timer.new_Timer
     (Timer.mkConfig (Some (Fin (1 # 1152921504606846976))) None None),
   fresh_host (ticking 20)).


(** The engine's loop at 50 updates per second, with a panic callback
    that throws. *)
Definition panicking_engine : @EngineGameLoop.System unit :=
  (EngineGameLoop.new_GameLoop
     (EngineGameLoop.mkCallbacks quiet quiet
        (Some (fun _ w => Raised (ErrorMsg "boom") w)) None)
     (EngineGameLoop.mkOptions (Some (num 50)) None None),
   fresh_host (ticking 20)).

End LoopScenes.

(** Concrete trees and objects for the closed statements. *)
Module Scenes.
Import Quadtree.

(** The open-interior overlap of an object with a boundary. *)
Definition overlaps_boundary (o : QuadtreeObject) (b : Boundary) : bool :=
  CollisionSystem.hasCollision
    (CollisionSystem.detectAABBCollision
       (as_box o)
       (CollisionSystem.mkBox (x b) (y b) (width b) (height b))).

(** An empty 100 x 100 field at level 0; its midlines are x = 50 and
    y = 50. *)
Definition field : Quadtree := mkQuadtree (ibound 0 0 100 100) [] [] 0.

(** An object of the top left quadrant that reaches x = 49. *)
Definition wide : QuadtreeObject := iobj 6 40 10 9 5.

(** An object that crosses x = 50, and overlaps [wide]. *)
Definition across : QuadtreeObject := iobj 11 45 10 10 5.

(** Eleven objects, one more than a leaf keeps: six in the top left
    quadrant, four in the bottom right one, and [across]. *)
Definition crowd : list QuadtreeObject :=
  [iobj 1 11 10 1 1; iobj 2 12 10 1 1; iobj 3 13 10 1 1; iobj 4 14 10 1 1;
   iobj 5 15 10 1 1; wide;
   iobj 7 67 60 1 1; iobj 8 68 60 1 1; iobj 9 69 60 1 1; iobj 10 70 60 1 1;
   across].

(** An object over the centre of [field]: it overlaps all four
    quadrants. *)
Definition centre : QuadtreeObject := iobj 12 45 45 10 10.

(** An empty 20 x 20 cell at level 0: its halves are below [MIN_SIZE]. *)
Definition cell : Quadtree := mkQuadtree (ibound 0 0 20 20) [] [] 0.

Definition dot (n : Z) : QuadtreeObject := iobj n 1 1 2 2.

Definition ten_dots : list QuadtreeObject :=
  [dot 1; dot 2; dot 3; dot 4; dot 5; dot 6; dot 7; dot 8; dot 9; dot 10].

(** An 800 x 600 leaf at level 0 that holds ten objects. *)
Definition arena : Quadtree :=
  mkQuadtree (ibound 0 0 800 600)
    [iobj 1 10 10 5 5; iobj 2 500 10 5 5; iobj 3 10 400 5 5;
     iobj 4 500 400 5 5; iobj 5 398 10 5 5; iobj 6 20 20 5 5;
     iobj 7 600 30 5 5; iobj 8 30 500 5 5; iobj 9 700 500 5 5;
     iobj 10 100 298 5 5]
    [] 0.

End Scenes.

(* ================================================================== *)
(** * Properties *)
(* ================================================================== *)

(** ** JavaScript numbers *)

Section NumberFacts.
Open Scope Q_scope.

Lemma ltb_Fin (p q : Q) : ltb (Fin p) (Fin q) = true <-> p < q.
Proof.
  unfold ltb. rewrite Qlt_alt.
  destruct (p ?= q); split; intro H; try reflexivity; discriminate H.
Qed.

Lemma ltb_Fin_false (p q : Q) : ltb (Fin p) (Fin q) = false <-> q <= p.
Proof.
  rewrite <- Bool.not_true_iff_false, ltb_Fin.
  split; [apply Qnot_lt_le | apply Qle_not_lt].
Qed.

Lemma leb_Fin (p q : Q) : leb (Fin p) (Fin q) = true <-> p <= q.
Proof.
  unfold leb. rewrite Qle_alt.
  destruct (p ?= q); split; intro H; try reflexivity;
    try discriminate H; try (intro H'; discriminate H'); now elim H.
Qed.

Lemma leb_Fin_false (p q : Q) : leb (Fin p) (Fin q) = false <-> q < p.
Proof.
  rewrite <- Bool.not_true_iff_false, leb_Fin.
  split; [apply Qnot_le_lt | apply Qlt_not_le].
Qed.

Lemma gtb_Fin (p q : Q) : gtb (Fin p) (Fin q) = true <-> q < p.
Proof. apply ltb_Fin. Qed.


Lemma geb_Fin_false (p q : Q) : geb (Fin p) (Fin q) = false <-> p < q.
Proof. apply leb_Fin_false. Qed.

Lemma ltb_negative (a : number) : ltb a (num 0) = true <-> negative a.
Proof.
  destruct a as [| |q|]; simpl; try (split; [discriminate | contradiction]).
  - split; auto.
  - apply ltb_Fin.
Qed.

Lemma gtb_positive (a : number) : gtb a (num 0) = true <-> positive a.
Proof.
  destruct a as [| |q|]; simpl; try (split; [discriminate | contradiction]).
  - apply (ltb_Fin 0 q).
  - split; auto.
Qed.

Lemma isFinite_finite (a : number) : isFinite a = true <-> finite a.
Proof.
  unfold finite.
  destruct a as [| |q|]; simpl; split; intro H;
    try discriminate H; try (destruct H; discriminate);
    try reflexivity.
  now exists q.
Qed.

(** Two booleans that are true together are equal. *)
Lemma bool_ext (b c : bool) : (b = true <-> c = true) -> b = c.
Proof.
  destruct b, c; intros [H1 H2]; try reflexivity.
  - symmetry. now apply H1.
  - now apply H2.
Qed.

(** [s - b > 0] and [s > b] agree on every pair of numbers. *)
Lemma gtb_sub_zero (s b : number) : gtb (sub s b) (num 0) = gtb s b.
Proof.
  destruct s as [| |p|], b as [| |q|]; try reflexivity.
  apply bool_ext. unfold sub, num. rewrite !gtb_Fin, Qred_correct.
  unfold inject_Z. split; intro H; lra.
Qed.

(** [Math.min(u, v) > 0] exactly when both are. *)
Lemma gtb_min_zero (u v : number) :
  gtb (JS.min u v) (num 0) = gtb u (num 0) && gtb v (num 0).
Proof.
  destruct u as [| |p|], v as [| |q|]; try reflexivity;
    try (cbn; now rewrite ?andb_false_r, ?andb_true_r).
  - unfold JS.min. destruct (ltb (Fin q) (Fin p)) eqn:E.
    + apply ltb_Fin in E. apply bool_ext. rewrite andb_true_iff.
      unfold num, inject_Z. rewrite !gtb_Fin. split; [intro H; split; lra | tauto].
    + apply ltb_Fin_false in E. apply bool_ext. rewrite andb_true_iff.
      unfold num, inject_Z. rewrite !gtb_Fin. split; [intro H; split; lra | tauto].
Qed.

End NumberFacts.

(** Comparisons of finite numbers, read as comparisons of rationals. *)
Ltac js_to_Q :=
  cbn [Rect.to_box Rect.to_object
       CollisionSystem.x CollisionSystem.y CollisionSystem.width
       CollisionSystem.height Quadtree.obj_x Quadtree.obj_y
       Quadtree.obj_width Quadtree.obj_height] in *;
  unfold gtb, geb, add, sub, num, inject_Z in *;
  repeat match goal with
    | H : ltb (Fin _) (Fin _) = true |- _ => apply ltb_Fin in H
    | H : ltb (Fin _) (Fin _) = false |- _ => apply ltb_Fin_false in H
    | H : leb (Fin _) (Fin _) = true |- _ => apply leb_Fin in H
    | H : leb (Fin _) (Fin _) = false |- _ => apply leb_Fin_false in H
    | |- ltb (Fin _) (Fin _) = true => apply ltb_Fin
    | |- ltb (Fin _) (Fin _) = false => apply ltb_Fin_false
    | |- leb (Fin _) (Fin _) = true => apply leb_Fin
    | |- leb (Fin _) (Fin _) = false => apply leb_Fin_false
    end;
  rewrite ?Qred_correct in *;
  unfold Qdiv in *; change (/ (2 # 1))%Q with (1 # 2)%Q in *.

(* ================================================================== *)
(** ** Binary64 arithmetic: rounding keeps the order *)
(* ================================================================== *)

Section DoubleFacts.
Import Double.
Open Scope Q_scope.

(** *** Powers of two *)

Lemma pow2_pos (k : Z) : 0 < pow2 k.
Proof. apply Qpower_0_lt. reflexivity. Qed.

Lemma pow2_add (a b : Z) : pow2 (a + b) == pow2 a * pow2 b.
Proof. apply Qpower_plus. discriminate. Qed.



Lemma pow2_lt_inv (a b : Z) : pow2 a < pow2 b -> (a < b)%Z.
Proof. intro H. apply Qpower_lt_compat_l_inv with (q := 2 # 1); [exact H | reflexivity]. Qed.

Lemma pow2_Z (k : Z) : (0 <= k)%Z -> pow2 k == inject_Z (2 ^ k).
Proof. intro H. unfold pow2. now rewrite Zpower_Qpower. Qed.



(** *** The binary logarithm *)

Lemma ilog2_spec (q : Q) :
  0 < q -> pow2 (ilog2 q) <= q < pow2 (ilog2 q + 1).
Proof.
  intro Hq. destruct q as [n d]. unfold ilog2. cbn [Qnum Qden].
  assert (Hn : (0 < n)%Z) by (unfold Qlt in Hq; cbn in Hq; lia).
  set (ln := Z.log2 n). set (ld := Z.log2 (Zpos d)).
  assert (Hln : (0 <= ln)%Z) by apply Z.log2_nonneg.
  assert (Hld : (0 <= ld)%Z) by apply Z.log2_nonneg.
  destruct (Z.log2_spec n Hn) as [Hn1 Hn2]. fold ln in Hn1, Hn2.
  destruct (Z.log2_spec (Zpos d) (Pos2Z.is_pos d)) as [Hd1 Hd2].
  fold ld in Hd1, Hd2.
  assert (Eq : n # d == inject_Z n / inject_Z (Zpos d)) by apply Qmake_Qdiv.
  assert (Hdpos : 0 < inject_Z (Zpos d)) by reflexivity.
  assert (Qn1 : pow2 ln <= inject_Z n)
    by (rewrite pow2_Z by lia; rewrite <- Zle_Qle; exact Hn1).
  assert (Qn2 : inject_Z n < pow2 (ln + 1))
    by (rewrite pow2_Z by lia; rewrite <- Zlt_Qlt; unfold Z.succ in Hn2; exact Hn2).
  assert (Qd1 : pow2 ld <= inject_Z (Zpos d))
    by (rewrite pow2_Z by lia; rewrite <- Zle_Qle; exact Hd1).
  assert (Qd2 : inject_Z (Zpos d) < pow2 (ld + 1))
    by (rewrite pow2_Z by lia; rewrite <- Zlt_Qlt; unfold Z.succ in Hd2; exact Hd2).
  assert (Hup : n # d < pow2 (ln - ld + 1)).
  { rewrite Eq. apply Qlt_shift_div_r; [exact Hdpos |].
    apply Qlt_le_trans with (1 := Qn2).
    replace (ln + 1)%Z with ((ln - ld + 1) + ld)%Z by ring.
    rewrite pow2_add. apply Qmult_le_l; [apply pow2_pos | exact Qd1]. }
  assert (Hlow : pow2 (ln - ld - 1) <= n # d).
  { rewrite Eq. apply Qle_shift_div_l; [exact Hdpos |].
    apply Qle_trans with (2 := Qn1).
    replace ln with ((ln - ld - 1) + (ld + 1))%Z at 2 by ring.
    rewrite pow2_add. apply Qmult_le_l; [apply pow2_pos |].
    apply Qlt_le_weak. exact Qd2. }
  destruct (Qle_bool (pow2 (ln - ld)) (n # d)) eqn:E.
  - apply Qle_bool_iff in E. split; assumption.
  - split; [exact Hlow |].
    replace (ln - ld - 1 + 1)%Z with (ln - ld)%Z by ring.
    apply Qnot_le_lt. intro F. apply Qle_bool_iff in F. congruence.
Qed.

Lemma ilog2_unique (q : Q) (e : Z) :
  pow2 e <= q < pow2 (e + 1) -> ilog2 q = e.
Proof.
  intros [H1 H2].
  assert (Hq : 0 < q) by (apply Qlt_le_trans with (2 := H1); apply pow2_pos).
  destruct (ilog2_spec Hq) as [S1 S2].
  assert (A : (ilog2 q < e + 1)%Z)
    by (apply pow2_lt_inv; apply Qle_lt_trans with (1 := S1); exact H2).
  assert (B : (e < ilog2 q + 1)%Z)
    by (apply pow2_lt_inv; apply Qle_lt_trans with (1 := H1); exact S2).
  lia.
Qed.

Lemma ilog2_comp (p q : Q) : 0 < p -> p == q -> ilog2 p = ilog2 q.
Proof.
  intros Hp E. apply ilog2_unique. rewrite E.
  apply ilog2_spec. rewrite <- E. exact Hp.
Qed.


(** *** Rounding to an integer *)

Lemma rne_comp (p q : Q) : p == q -> rne p = rne q.
Proof.
  intro E. unfold rne. rewrite (Qfloor_comp _ _ E).
  assert (C : (p - inject_Z (Qfloor q) ?= 1 # 2) = (q - inject_Z (Qfloor q) ?= 1 # 2))
    by (apply Qcompare_comp; [rewrite E |]; reflexivity).
  now rewrite C.
Qed.





(** *** Rounding a positive rational to its last place *)










Lemma nearest_comp (p q : Q) : 0 < p -> p == q -> nearest p == nearest q.
Proof.
  intros Hp E. unfold nearest, exponent. rewrite (ilog2_comp Hp E).
  set (c := Z.max (ilog2 q - 52) (-1074)).
  assert (R : rne (p / pow2 c) = rne (q / pow2 c))
    by (apply rne_comp; now rewrite E).
  now rewrite R.
Qed.



(** *** Rounding to a number *)

Lemma round_zero (q : Q) : q == 0 -> round q = Fin 0.
Proof. intro E. unfold round. now rewrite (proj1 (Qeq_alt q 0) E). Qed.

Lemma round_positive (q : Q) :
  0 < q ->
  round q = if Qle_bool (pow2 1024) (nearest q) then PosInf
            else Fin (Qred (nearest q)).
Proof. intro H. unfold round. now rewrite (proj1 (Qgt_alt q 0) H). Qed.

Lemma round_negative (q : Q) :
  q < 0 ->
  round q = if Qle_bool (pow2 1024) (nearest (- q)) then NegInf
            else Fin (Qred (- nearest (- q))).
Proof. intro H. unfold round. now rewrite (proj1 (Qlt_alt q 0) H). Qed.

Lemma round_comp (p q : Q) : p == q -> round p = round q.
Proof.
  intro E. destruct (Q_dec p 0) as [[H | H] | H].
  - rewrite (round_negative H), (@round_negative q) by (rewrite <- E; exact H).
    assert (N : nearest (- p) == nearest (- q))
      by (apply nearest_comp; [lra | now rewrite E]).
    assert (B : Qle_bool (pow2 1024) (nearest (- p))
                = Qle_bool (pow2 1024) (nearest (- q))).
    { apply eq_true_iff_eq. rewrite !Qle_bool_iff, N. reflexivity. }
    rewrite B. destruct (Qle_bool (pow2 1024) (nearest (- q))); [reflexivity |].
    f_equal. apply Qred_complete. now rewrite N.
  - rewrite (round_positive H), (@round_positive q) by (rewrite <- E; exact H).
    assert (N : nearest p == nearest q) by (now apply nearest_comp).
    assert (B : Qle_bool (pow2 1024) (nearest p)
                = Qle_bool (pow2 1024) (nearest q)).
    { apply eq_true_iff_eq. rewrite !Qle_bool_iff, N. reflexivity. }
    rewrite B. destruct (Qle_bool (pow2 1024) (nearest q)); [reflexivity |].
    f_equal. apply Qred_complete. exact N.
  - rewrite (round_zero H), (@round_zero q) by (rewrite <- E; exact H).
    reflexivity.
Qed.




(** *** Numbers the machine can hold *)








(** *** Numbers on the grid of a last place *)






End DoubleFacts.

(* ================================================================== *)
(** ** Narrow phase: [CollisionSystem.checkCollision] *)
(* ================================================================== *)

Section NarrowPhase.
Import CollisionSystem.

(** The test of the source on the two minima is the conjunction of the
    four strict inequalities, on all numbers. *)
Lemma detect_hasCollision (a b : BoundingBox) :
  hasCollision (detectAABBCollision a b)
  = ((x a <? x b + width b) && (x a + width a >? x b)
     && (y a <? y b + height b) && (y a + height a >? y b))%js.
Proof.
  unfold detectAABBCollision.
  match goal with |- hasCollision (if ?c then _ else _) = _ =>
    transitivity c; [destruct c; reflexivity |] end.
  rewrite !gtb_min_zero, !gtb_sub_zero. unfold gtb.
  destruct (x a <? x b + width b)%js, (x b <? x a + width a)%js,
           (y a <? y b + height b)%js, (y b <? y a + height a)%js; reflexivity.
Qed.

Lemma detect_overlap (a b : BoundingBox) :
  overlap (detectAABBCollision a b)
  = if hasCollision (detectAABBCollision a b)
    then Some (mkOverlap (JS.min (x a + width a - x b) (x b + width b - x a))
                         (JS.min (y a + height a - y b) (y b + height b - y a)))
    else None.
Proof.
  unfold detectAABBCollision.
  match goal with |- context [if ?c then _ else _] => destruct c end; reflexivity.
Qed.

(** Two numbers cannot each be strictly below the other plus zero. *)
Lemma no_strict_overlap_of_points (p q : number) :
  ((p <? q + num 0) && (p + num 0 >? q))%js = false.
Proof.
  destruct p as [| |p|], q as [| |q|]; try reflexivity.
  destruct (Fin p <? Fin q + num 0)%js eqn:E1; [| reflexivity].
  destruct (Fin p + num 0 >? Fin q)%js eqn:E2; [| reflexivity].
  exfalso. js_to_Q. lra.
Qed.

(** C3, as the code has it.  For boxes that pass validation (no negative
    width or height), [checkCollision] returns normally, and reports a
    collision exactly when the four strict inequalities
    [A.x < B.x + B.width], [A.x + A.width > B.x], [A.y < B.y + B.height],
    [A.y + A.height > B.y] hold; the overlap it then reports is
    [min(A.right - B.left, B.right - A.left)] on x and the same on y.
    Two boxes that both have zero width, or both zero height, never
    collide.  (A single zero-width box does collide with a box it lies
    inside.) *)
Theorem checkCollision_strict_overlap (a b : BoundingBox) :
  (width a <? num 0)%js = false -> (height a <? num 0)%js = false ->
  (width b <? num 0)%js = false -> (height b <? num 0)%js = false ->
  exists r : CollisionResult,
    checkCollision a b = (Normal r, [])
    /\ (hasCollision r = true <->
        (x a <? x b + width b)%js = true /\ (x a + width a >? x b)%js = true
        /\ (y a <? y b + height b)%js = true /\ (y a + height a >? y b)%js = true)
    /\ overlap r
       = (if hasCollision r
          then Some (mkOverlap
                       (JS.min (x a + width a - x b) (x b + width b - x a))
                       (JS.min (y a + height a - y b) (y b + height b - y a)))
          else None)
    /\ (width a = num 0 -> width b = num 0 -> hasCollision r = false)
    /\ (height a = num 0 -> height b = num 0 -> hasCollision r = false).
Proof.
  intros Hwa Hha Hwb Hhb.
  exists (detectAABBCollision a b).
  assert (Hshape : checkCollision a b = (Normal (detectAABBCollision a b), [])).
  { unfold checkCollision, validateBoundingBox.
    rewrite Hwa, Hha, Hwb, Hhb. cbn [orb].
    unfold detectAABBCollision.
    match goal with |- context [if ?c then mkResult true _ else _] =>
      destruct c end; reflexivity. }
  split; [exact Hshape |].
  split.
  { rewrite detect_hasCollision, !andb_true_iff. tauto. }
  split; [apply detect_overlap |].
  split.
  - intros Ha Hb. rewrite detect_hasCollision, Ha, Hb.
    now rewrite no_strict_overlap_of_points.
  - intros Ha Hb. rewrite detect_hasCollision, Ha, Hb.
    rewrite <- andb_assoc, no_strict_overlap_of_points.
    apply andb_false_r.
Qed.

Lemma checkCollision_strict_overlap_witness :
  exists r : CollisionResult,
    checkCollision (ibox 0 0 10 10) (ibox 5 5 10 10) = (Normal r, [])
    /\ hasCollision r = true
    /\ overlap r = Some (mkOverlap (num 5) (num 5)).
Proof.
  destruct (@checkCollision_strict_overlap (ibox 0 0 10 10) (ibox 5 5 10 10))
    as [r [Hr [Hiff [Hov _]]]]; try reflexivity.
  exists r. split; [exact Hr |].
  assert (Hc : hasCollision r = true) by (apply Hiff; repeat split).
  split; [exact Hc |]. rewrite Hov, Hc. reflexivity.
Defined.

(** The two examples of the specification. *)
Example checkCollision_overlapping_boxes :
  checkCollision (ibox 0 0 10 10) (ibox 5 5 10 10)
  = (Normal (mkResult true (Some (mkOverlap (num 5) (num 5)))), []).
Proof. reflexivity. Qed.

Example checkCollision_edge_touching_boxes :
  checkCollision (ibox 0 0 10 10) (ibox 10 0 10 10)
  = (Normal (mkResult false None), []).
Proof. reflexivity. Qed.

(** C3 as stated fails: a box of zero width lying inside another box is
    reported to collide with it. *)
Lemma zero_width_box_collides :
  width (ibox 5 5 0 10) = num 0
  /\ checkCollision (ibox 5 5 0 10) (ibox 0 0 10 10)
     = (Normal (mkResult true (Some (mkOverlap (num 5) (num 5)))), []).
Proof. split; reflexivity. Qed.

End NarrowPhase.

(* ================================================================== *)
(** ** The two overlap tests on boxes that touch *)
(* ================================================================== *)

Section TouchingBoxes.
Open Scope Q_scope.

Lemma touching_not_strict (a b : Rect.t) :
  Rect.nonneg a -> Rect.nonneg b -> Rect.touching a b ->
  CollisionSystem.hasCollision
    (CollisionSystem.detectAABBCollision (Rect.to_box a) (Rect.to_box b)) = false.
Proof.
  intros [Hwa Hha] [Hwb Hhb] Ht.
  rewrite detect_hasCollision.
  apply Bool.not_true_iff_false. rewrite !andb_true_iff.
  intros [[[H1 H2] H3] H4]. js_to_Q.
  destruct Ht as [[[E | E] _] | [[E | E] _]]; lra.
Qed.

(** C10.  For two boxes of non-negative size that touch only along an
    edge or at a corner, [Quadtree.checkCollision] answers [true] while
    [CollisionSystem.checkCollision] reports no collision. *)
Theorem touching_boxes_opposite_verdicts
    (a b : Rect.t) (ia ib : option Quadtree.ObjectId) :
  Rect.nonneg a -> Rect.nonneg b -> Rect.touching a b ->
  Quadtree.checkCollision (Rect.to_object a ia) (Rect.to_object b ib) = true
  /\ CollisionSystem.checkCollision (Rect.to_box a) (Rect.to_box b)
     = (Normal (CollisionSystem.mkResult false None), []).
Proof.
  intros Ha Hb Ht. split.
  - unfold Quadtree.checkCollision.
    apply negb_true_iff. rewrite !orb_false_iff.
    destruct Ha as [Hwa Hha], Hb as [Hwb Hhb].
    assert (Hx : Rect.meet_x a b).
    { destruct Ht as [[[E | E] _] | [_ M]]; [split; lra | split; lra | exact M]. }
    assert (Hy : Rect.meet_y a b).
    { destruct Ht as [[_ M] | [[E | E] _]]; [exact M | split; lra | split; lra]. }
    destruct Hx as [Hx1 Hx2], Hy as [Hy1 Hy2].
    repeat split; js_to_Q; lra.
  - pose proof (touching_not_strict Ha Hb Ht) as Hno.
    destruct Ha as [Hwa Hha], Hb as [Hwb Hhb].
    unfold CollisionSystem.checkCollision, CollisionSystem.validateBoundingBox.
    rewrite Hno.
    assert (Ea : (CollisionSystem.width (Rect.to_box a) <? num 0)%js = false)
      by (js_to_Q; lra).
    assert (Eb : (CollisionSystem.height (Rect.to_box a) <? num 0)%js = false)
      by (js_to_Q; lra).
    assert (Ec : (CollisionSystem.width (Rect.to_box b) <? num 0)%js = false)
      by (js_to_Q; lra).
    assert (Ed : (CollisionSystem.height (Rect.to_box b) <? num 0)%js = false)
      by (js_to_Q; lra).
    rewrite Ea, Eb, Ec, Ed. reflexivity.
Qed.

Lemma touching_boxes_opposite_verdicts_witness :
  Quadtree.checkCollision
    (Rect.to_object (Rect.make 0 0 10 10) None)
    (Rect.to_object (Rect.make 10 0 10 10) None) = true
  /\ CollisionSystem.checkCollision
       (Rect.to_box (Rect.make 0 0 10 10)) (Rect.to_box (Rect.make 10 0 10 10))
     = (Normal (CollisionSystem.mkResult false None), []).
Proof.
  apply touching_boxes_opposite_verdicts.
  - split; discriminate.
  - split; discriminate.
  - left. split.
    + left. reflexivity.
    + split; discriminate.
Defined.

End TouchingBoxes.

(* ================================================================== *)
(** ** Broad phase: [Quadtree] *)
(* ================================================================== *)

Section QuadtreeFacts.
Import Quadtree Placement.

Lemma ltb_asym (a b : number) : ltb a b = true -> ltb b a = false.
Proof.
  destruct a as [| |p|], b as [| |q|]; try reflexivity; try discriminate.
  intro H. js_to_Q. lra.
Qed.

(** [getIndices] yields no index or a single one among 0..3. *)
Lemma getIndices_cases (t : Quadtree) (o : QuadtreeObject) :
  getIndices t o = [] \/ exists i, i < 4 /\ getIndices t o = [i].
Proof.
  unfold getIndices, push_if, gtb.
  set (vm := (x (boundary t) + width (boundary t) / num 2)%js).
  set (hm := (y (boundary t) + height (boundary t) / num 2)%js).
  destruct (obj_x o <? vm)%js eqn:A1;
    [ rewrite (ltb_asym _ _ A1) | ];
  (destruct (obj_y o <? hm)%js eqn:T1;
    [ rewrite (ltb_asym _ _ T1) | ]);
  cbn [andb];
  repeat match goal with
    | |- context [ltb ?a ?b] => destruct (ltb a b); cbn [andb]
    end; cbn;
  solve [ left; reflexivity
        | right; eexists; split; [| reflexivity]; lia ].
Qed.

Lemma stays_or_goes (t : Quadtree) (o : QuadtreeObject) :
  (stays t o = true /\ getIndices t o = [])
  \/ exists i, i < 4 /\ getIndices t o = [i] /\ stays t o = false
               /\ forall j, goes_to t j o = (i =? j).
Proof.
  unfold stays, goes_to.
  destruct (getIndices_cases t o) as [E | [i [Hi E]]]; rewrite E.
  - left; split; reflexivity.
  - right. exists i. repeat split; auto.
Qed.

Lemma insert_equation (fuel : nat) (t : Quadtree) (o : QuadtreeObject) :
  insert (S fuel) t o
  = if 0 <? length (nodes t) then
      match insert_each (fun c => insert fuel c o) (getIndices t o) (nodes t) with
      | None => None
      | Some (Raised e ns) => Some (Raised e (set_nodes t ns))
      | Some (Done ns) => Some (Done (set_nodes t ns))
      end
    else
      let t1 := set_objects t (objects t ++ [o]) in
      if (MAX_OBJECTS <? length (objects t1)) && (level t1 <? MAX_LEVELS) then
        match (if length (nodes t1) =? 0 then split t1 else Done t1) with
        | Raised e t2 => Some (Raised e t2)
        | Done t2 =>
            match redistribute (fun o c => insert fuel c o) (getIndices t2)
                               [] (objects t2) (nodes t2) with
            | None => None
            | Some (Raised e (objs, ns)) =>
                Some (Raised e (mkQuadtree (boundary t2) objs ns (level t2)))
            | Some (Done (objs, ns)) =>
                Some (Done (mkQuadtree (boundary t2) objs ns (level t2)))
            end
        end
      else Some (Done t1).
Proof. reflexivity. Qed.

(** A leaf below capacity, or at the last level, just stores the object. *)
Lemma insert_leaf_no_split (fuel : nat) (t : Quadtree) (o : QuadtreeObject) :
  nodes t = [] ->
  length (objects t) < MAX_OBJECTS \/ MAX_LEVELS <= level t ->
  insert (S fuel) t o = Some (Done (set_objects t (objects t ++ [o]))).
Proof.
  intros Hleaf Hcap. rewrite insert_equation, Hleaf.
  change (0 <? length (@nil Quadtree)) with false. cbv iota zeta.
  destruct (_ && _) eqn:E; [exfalso | reflexivity].
  apply andb_true_iff in E as [E1 E2].
  apply Nat.ltb_lt in E1, E2. cbn [set_objects objects level] in E1, E2.
  rewrite length_app in E1. cbn [length] in E1.
  unfold MAX_OBJECTS, MAX_LEVELS in *. lia.
Qed.

Lemma min_side_ge (k : nat) : (16 <= min_side k)%Q.
Proof. induction k as [| k IH]; cbn [min_side]; lra. Qed.

Lemma half_Fin (w : Q) : (Fin w / num 2)%js = Fin (Qred (w / 2)).
Proof. reflexivity. Qed.

Lemma half_not_small (w : Q) :
  (32 <= w)%Q -> (Fin w / num 2 <? MIN_SIZE)%js = false.
Proof.
  intro H. rewrite half_Fin. unfold MIN_SIZE. js_to_Q. lra.
Qed.

Lemma half_valid (bx b_y w h : Q) :
  (32 <= w)%Q -> (32 <= h)%Q ->
  isValidBoundary (mkBoundary (Fin bx) (Fin b_y) (Fin w / num 2)%js (Fin h / num 2)%js)
  = true.
Proof.
  intros Hw Hh. unfold isValidBoundary. cbn [x y width height isFinite].
  rewrite !half_Fin, !andb_true_r. apply andb_true_iff.
  split; js_to_Q; lra.
Qed.

Lemma split_roomy (t : Quadtree) :
  nodes t = [] -> roomy t -> level t < MAX_LEVELS ->
  split t = Done (set_nodes t [fresh_child t 0; fresh_child t 1;
                               fresh_child t 2; fresh_child t 3])
  /\ forall i, i < 4 -> roomy (fresh_child t i).
Proof.
  destruct t as [b objs ns lvl]. cbn [nodes level].
  intros -> (bx & b_y & w & h & Hb & Hw & Hh) Hlvl.
  cbn [boundary level] in Hb, Hw, Hh. subst b.
  destruct (MAX_LEVELS - lvl) as [| k] eqn:Ek; [lia |].
  cbn [min_side] in Hw, Hh. pose proof (min_side_ge k) as Hk.
  assert (Hw32 : (32 <= w)%Q) by lra. assert (Hh32 : (32 <= h)%Q) by lra.
  split.
  - unfold split, fresh_child, quadrant, new_Quadtree.
    cbn [boundary x y width height level nodes set_nodes objects array_set].
    rewrite (half_not_small Hw32), (half_not_small Hh32). cbn [orb].
    rewrite !half_Fin. cbn [add].
    rewrite <- !half_Fin.
    rewrite !half_valid by assumption. cbn [negb].
    reflexivity.
  - intros i Hi. unfold roomy, fresh_child, quadrant.
    cbn [boundary level x y width height].
    rewrite !half_Fin. cbn [add].
    assert (Ek' : MAX_LEVELS - (lvl + 1) = k) by lia. rewrite Ek'.
    destruct i as [| [| [| i]]];
      do 4 eexists; (split; [reflexivity |]); split; js_to_Q; lra.
Qed.

Lemma all_objects_equation (t : Quadtree) :
  all_objects t = objects t ++ flat_map all_objects (nodes t).
Proof. destruct t; reflexivity. Qed.

Lemma all_objects_leaf (t : Quadtree) :
  nodes t = [] -> all_objects t = objects t.
Proof. intro H. rewrite all_objects_equation, H. apply app_nil_r. Qed.

(** *** Array assignment *)

Lemma array_set_length {A : Type} (i : nat) (v : A) (l : list A) :
  i < length l -> length (array_set i v l) = length l.
Proof.
  revert i; induction l as [| a l IH]; intros [| i] H; cbn in *; try lia.
  rewrite IH; lia.
Qed.

Lemma array_set_same {A : Type} (i : nat) (v : A) (l : list A) :
  i < length l -> nth_error (array_set i v l) i = Some v.
Proof.
  revert i; induction l as [| a l IH]; intros [| i] H; cbn in *; try lia.
  - reflexivity.
  - apply IH; lia.
Qed.

Lemma array_set_other {A : Type} (i j : nat) (v : A) (l : list A) :
  i < length l -> i <> j -> nth_error (array_set i v l) j = nth_error l j.
Proof.
  revert i j; induction l as [| a l IH]; intros [| i] [| j] H Hne;
    cbn in *; try lia; try reflexivity.
  apply IH; lia.
Qed.

Lemma array_set_In {A : Type} (i : nat) (v c : A) (l : list A) :
  i < length l -> In c (array_set i v l) -> c = v \/ In c l.
Proof.
  revert i; induction l as [| a l IH]; intros [| i] H Hin; cbn in *; try lia.
  - destruct Hin as [-> | Hin]; auto.
  - destruct Hin as [-> | Hin]; auto.
    destruct (IH i ltac:(lia) Hin); auto.
Qed.

(** *** Handing the objects of a full leaf over to its new children *)

Section Redistribution.

Variable k : nat.
Variable fuel' : nat.
Variable t : Quadtree.

Hypothesis fill :
  forall c o, fillable k c -> length (objects c) <= MAX_OBJECTS ->
    exists c', insert (S fuel') c o = Some (Done c')
               /\ boundary c' = boundary c /\ level c' = level c
               /\ Permutation (all_objects c') (objects c ++ [o]).

Lemma fillable_set_objects (c : Quadtree) (objs : list QuadtreeObject) :
  fillable k c -> fillable k (set_objects c objs).
Proof. intros (H1 & H2 & H3). repeat split; assumption. Qed.

Lemma redistribute_fillable :
  forall (rest kept : list QuadtreeObject) (ns : list Quadtree),
    length ns = 4 ->
    (rest <> [] ->
     forall c, In c ns ->
       fillable k c /\ length (objects c) + length rest <= S MAX_OBJECTS) ->
    exists ns',
      redistribute (fun o c => insert (S fuel') c o) (getIndices t) kept rest ns
      = Some (Done (kept ++ filter (stays t) rest, ns'))
      /\ length ns' = 4
      /\ forall i c, nth_error ns i = Some c ->
           exists c', nth_error ns' i = Some c'
                      /\ boundary c' = boundary c /\ level c' = level c
                      /\ Permutation (all_objects c')
                                     (all_objects c ++ filter (goes_to t i) rest).
Proof.
  induction rest as [| o rest IH]; intros kept ns Hlen Hinv.
  - exists ns. cbn. rewrite app_nil_r. repeat split; auto.
    intros i c Hc. exists c. rewrite app_nil_r. auto.
  - cbn [redistribute filter].
    destruct (stays_or_goes t o) as [[Hs E] | (i & Hi & E & Hs & Hg)];
      rewrite E, Hs.
    + (* no index: the object stays *)
      cbn [length Nat.ltb Nat.leb].
      destruct (IH (kept ++ [o]) ns Hlen) as (ns' & Hr & Hlen' & Hch).
      { intros Hne c Hc. destruct (Hinv ltac:(discriminate) c Hc) as [Hf Hn].
        split; [exact Hf |]. cbn [length] in Hn. lia. }
      exists ns'. rewrite Hr, <- app_assoc. repeat split; auto.
      intros j c Hc. destruct (Hch j c Hc) as (c' & H1 & H2 & H3 & H4).
      exists c'. repeat split; auto.
      unfold goes_to at 1. unfold goes_to in H4. now rewrite E.
    + (* the single index [i] *)
      cbn [length Nat.ltb Nat.leb insert_each].
      destruct (nth_error ns i) as [c |] eqn:Hc;
        [| apply nth_error_None in Hc; lia].
      destruct (Hinv ltac:(discriminate) c (@nth_error_In _ _ _ _ Hc)) as [Hf Hn].
      cbn [length] in Hn.
      destruct (@fill c o Hf) as (c' & Hins & Hb & Hl & Hp);
        [unfold MAX_OBJECTS in *; lia |].
      rewrite Hins.
      assert (Hi' : i < length ns) by lia.
      destruct (IH kept (array_set i c' ns)) as (ns' & Hr & Hlen' & Hch).
      { rewrite array_set_length; lia. }
      { intros Hne c0 Hc0.
        assert (Hrest : 1 <= length rest) by (destruct rest; [congruence | cbn; lia]).
        assert (Hbelow : length (objects c) < MAX_OBJECTS)
          by (unfold MAX_OBJECTS in *; lia).
        destruct Hf as (Hleaf & Hroomy & Hlev).
        rewrite (@insert_leaf_no_split fuel' c o Hleaf (or_introl Hbelow)) in Hins.
        injection Hins as <-.
        destruct (@array_set_In _ _ _ _ _ Hi' Hc0) as [-> | Hold].
        - split; [apply fillable_set_objects; repeat split; assumption |].
          cbn [set_objects objects]. rewrite length_app. cbn [length]. lia.
        - destruct (Hinv ltac:(discriminate) c0 Hold) as [Hf0 Hn0].
          split; [exact Hf0 |]. cbn [length] in Hn0. lia. }
      exists ns'. rewrite Hr. repeat split; auto.
      intros j c0 Hc0. destruct (Nat.eq_dec i j) as [<- | Hne].
      * rewrite Hc in Hc0. injection Hc0 as <-.
        destruct (Hch i c' (@array_set_same _ _ c' _ Hi')) as (c'' & H1 & H2 & H3 & H4).
        exists c''. repeat split; try congruence.
        rewrite Hg, Nat.eqb_refl. cbn [filter].
        rewrite H4. rewrite Hp, (all_objects_leaf c (proj1 Hf)).
        rewrite <- app_assoc. reflexivity.
      * destruct (Hch j c0) as (c'' & H1 & H2 & H3 & H4).
        { rewrite array_set_other; auto. }
        exists c''. repeat split; auto.
        rewrite Hg. apply Nat.eqb_neq in Hne. rewrite Hne. exact H4.
Qed.

End Redistribution.

(** [getIndices] looks at the boundary of the node only. *)
Lemma getIndices_boundary (t t' : Quadtree) (o : QuadtreeObject) :
  boundary t = boundary t' -> getIndices t o = getIndices t' o.
Proof. intro H. unfold getIndices. now rewrite H. Qed.

(** Every object either stays or has one of the four indices. *)
Lemma partition_by_index (t : Quadtree) (l : list QuadtreeObject) :
  Permutation l
    (filter (stays t) l ++ filter (goes_to t 0) l ++ filter (goes_to t 1) l
     ++ filter (goes_to t 2) l ++ filter (goes_to t 3) l).
Proof.
  induction l as [| a l IH]; [constructor |].
  cbn [filter].
  destruct (stays_or_goes t a) as [[Hs E] | (i & Hi & E & Hs & Hg)].
  - assert (Hno : forall j, goes_to t j a = false)
      by (intro j; unfold goes_to; now rewrite E).
    rewrite Hs, !Hno. cbn [app]. apply perm_skip. exact IH.
  - rewrite Hs, !Hg.
    destruct i as [| [| [| [| i]]]]; [| | | | lia]; cbn [Nat.eqb].
    + now apply Permutation_cons_app.
    + rewrite app_assoc. apply Permutation_cons_app. now rewrite <- app_assoc.
    + rewrite 2 app_assoc. apply Permutation_cons_app. now rewrite <- 2 app_assoc.
    + rewrite 3 app_assoc. apply Permutation_cons_app. now rewrite <- 3 app_assoc.
Qed.

(** *** Insertion into a leaf *)

Lemma insert_leaf_roomy (k : nat) :
  forall (fuel : nat) (t : Quadtree) (o : QuadtreeObject),
    nodes t = [] -> roomy t -> MAX_LEVELS - level t <= k -> k < fuel ->
    length (objects t) <= MAX_OBJECTS ->
    exists t',
      insert fuel t o = Some (Done t')
      /\ boundary t' = boundary t /\ level t' = level t
      /\ Permutation (all_objects t') (objects t ++ [o])
      /\ (length (objects t) = MAX_OBJECTS -> level t < MAX_LEVELS ->
          split_around t o t').
Proof.
  assert (Hplain : forall fuel t o,
    nodes t = [] ->
    length (objects t) < MAX_OBJECTS \/ MAX_LEVELS <= level t ->
    exists t', insert (S fuel) t o = Some (Done t')
      /\ boundary t' = boundary t /\ level t' = level t
      /\ Permutation (all_objects t') (objects t ++ [o])
      /\ (length (objects t) = MAX_OBJECTS -> level t < MAX_LEVELS ->
          split_around t o t')).
  { intros fuel t o Hleaf Hcap.
    exists (set_objects t (objects t ++ [o])).
    split; [now apply insert_leaf_no_split |].
    split; [reflexivity |]. split; [reflexivity |]. split.
    - rewrite all_objects_leaf by exact Hleaf. reflexivity.
    - intros Hfull Hlvl. unfold MAX_OBJECTS, MAX_LEVELS in *. lia. }
  induction k as [| k IHk]; intros fuel t o Hleaf Hroomy Hk Hfuel Hlen.
  - destruct fuel as [| fuel]; [lia |]. apply Hplain; [assumption | right; lia].
  - destruct fuel as [| fuel]; [lia |].
    destruct (Nat.eq_dec (length (objects t)) MAX_OBJECTS) as [Hfull | Hnot];
      [| apply Hplain; [assumption | left; lia]].
    destruct (le_lt_dec MAX_LEVELS (level t)) as [Hlast | Hlvl];
      [apply Hplain; [assumption | right; lia] |].
    destruct fuel as [| fuel']; [lia |].
    set (t1 := set_objects t (objects t ++ [o])).
    assert (Hleaf1 : nodes t1 = []) by exact Hleaf.
    assert (Hroomy1 : roomy t1) by exact Hroomy.
    destruct (split_roomy Hleaf1 Hroomy1 Hlvl) as [Hsplit Hchildren].
    set (t2 := set_nodes t1 [fresh_child t1 0; fresh_child t1 1;
                             fresh_child t1 2; fresh_child t1 3]) in *.
    destruct (@redistribute_fillable k fuel' t2) with
      (rest := objects t ++ [o]) (kept := @nil QuadtreeObject)
      (ns := nodes t2) as (ns' & Hr & Hlen' & Hch).
    { intros c o' (Hc1 & Hc2 & Hc3) Hc4. 
      destruct (IHk (S fuel') c o' Hc1 Hc2 Hc3 ltac:(lia) Hc4)
        as (c' & H1 & H2 & H3 & H4 & _).
      exists c'. auto. }
    { reflexivity. }
    { intros _ c Hc. cbn [t2 set_nodes nodes In] in Hc.
      assert (Hc' : exists i, i < 4 /\ c = fresh_child t1 i).
      { destruct Hc as [<- | [<- | [<- | [<- | []]]]];
          [exists 0 | exists 1 | exists 2 | exists 3]; split; auto; lia. }
      destruct Hc' as (i & Hi & ->).
      split.
      - repeat split; [apply Hchildren; exact Hi |].
        cbn [fresh_child level t1 set_objects]. lia.
      - cbn [fresh_child objects length]. rewrite length_app. cbn [length].
        unfold MAX_OBJECTS in *. lia. }
    cbn [app] in Hr.
    assert (Hsa : split_around t o
              (mkQuadtree (boundary t2) (filter (stays t2) (objects t ++ [o]))
                          ns' (level t2))).
    { unfold split_around. cbn [boundary level objects nodes].
      repeat split; try reflexivity; try exact Hlen'.
      intros i Hi.
      destruct (Hch i (fresh_child t1 i)) as (c' & H1 & H2 & H3 & H4).
      { destruct i as [| [| [| [| i]]]]; [| | | | lia]; reflexivity. }
      exists c'. repeat split; auto. }
    exists (mkQuadtree (boundary t2) (filter (stays t2) (objects t ++ [o]))
                       ns' (level t2)).
    split.
    { rewrite insert_equation, Hleaf.
      change (0 <? length (@nil Quadtree)) with false. cbv iota zeta.
      fold t1.
      assert (Hcond : (MAX_OBJECTS <? length (objects t1))
                      && (level t1 <? MAX_LEVELS) = true).
      { apply andb_true_iff. split; apply Nat.ltb_lt.
        - cbn [t1 set_objects objects]. rewrite length_app. cbn [length]. lia.
        - exact Hlvl. }
      rewrite Hcond, Hleaf1. change (length (@nil Quadtree) =? 0) with true.
      cbv iota. rewrite Hsplit. fold t2.
      change (objects t2) with (objects t ++ [o]).
      rewrite Hr. reflexivity. }
    split; [reflexivity |]. split; [reflexivity |].
    split; [| intros _ _; exact Hsa].
    destruct Hsa as (_ & _ & Hobjs & Hn & Hq). cbn [nodes objects] in *.
    rewrite all_objects_equation. cbn [objects nodes].
    destruct (Hq 0 ltac:(lia)) as (c0 & N0 & _ & _ & P0).
    destruct (Hq 1 ltac:(lia)) as (c1 & N1 & _ & _ & P1).
    destruct (Hq 2 ltac:(lia)) as (c2 & N2 & _ & _ & P2).
    destruct (Hq 3 ltac:(lia)) as (c3 & N3 & _ & _ & P3).
    destruct ns' as [| d0 [| d1 [| d2 [| d3 [| d4 ns']]]]]; try discriminate Hn.
    cbn in N0, N1, N2, N3.
    injection N0 as ->. injection N1 as ->. injection N2 as ->. injection N3 as ->.
    cbn [flat_map]. rewrite app_nil_r, Hobjs, P0, P1, P2, P3.
    symmetry. apply partition_by_index.
Qed.
End QuadtreeFacts.

Section QuadtreeClaims.
Import Quadtree Placement Scenes.

(** On an internal node the object goes into the child its single index
    names, and nowhere else. *)
Lemma insert_internal_routes (fuel : nat) (t : Quadtree) (o : QuadtreeObject)
    (i : nat) (c c' : Quadtree) :
  nodes t <> [] -> getIndices t o = [i] -> nth_error (nodes t) i = Some c ->
  insert fuel c o = Some (Done c') ->
  exists t',
    insert (S fuel) t o = Some (Done t')
    /\ objects t' = objects t
    /\ nth_error (nodes t') i = Some c'
    /\ forall j, j <> i -> nth_error (nodes t') j = nth_error (nodes t) j.
Proof.
  intros Hint E Hc Hins.
  assert (Hi : i < length (nodes t)) by (apply nth_error_Some; congruence).
  exists (set_nodes t (array_set i c' (nodes t))).
  split.
  - rewrite insert_equation.
    replace (0 <? length (nodes t)) with true
      by (symmetry; apply Nat.ltb_lt; lia).
    rewrite E. cbn [insert_each]. rewrite Hc, Hins. reflexivity.
  - cbn [set_nodes objects nodes]. split; [reflexivity |]. split.
    + now apply array_set_same.
    + intros j Hj. apply array_set_other; auto.
Qed.

(** An object that reaches across a midline of the node, or touches it,
    has no index. *)
Lemma straddler_has_no_index (t : Quadtree) (bx b_y w h : Q) (r : Rect.t)
    (i : option ObjectId) :
  boundary t = mkBoundary (Fin bx) (Fin b_y) (Fin w) (Fin h) ->
  (Rect.rx r <= bx + w / 2 <= Rect.rx r + Rect.rw r
   \/ Rect.ry r <= b_y + h / 2 <= Rect.ry r + Rect.rh r)%Q ->
  getIndices t (Rect.to_object r i) = [].
Proof.
  intros Hb Hmid. unfold getIndices, push_if. rewrite Hb.
  cbn [x y width height Rect.to_object obj_x obj_y obj_width obj_height].
  rewrite !half_Fin.
  destruct Hmid as [[H1 H2] | [H1 H2]].
  - assert (E1 : (Fin (Rect.rx r) + Fin (Rect.rw r) <? Fin bx + Fin (Qred (w / 2)))%js
                 = false) by (js_to_Q; lra).
    assert (E2 : (Fin (Rect.rx r) >? Fin bx + Fin (Qred (w / 2)))%js = false)
      by (js_to_Q; lra).
    rewrite E1, E2, andb_false_r. reflexivity.
  - assert (E1 : (Fin (Rect.ry r) + Fin (Rect.rh r) <? Fin b_y + Fin (Qred (h / 2)))%js
                 = false) by (js_to_Q; lra).
    assert (E2 : (Fin (Rect.ry r) >? Fin b_y + Fin (Qred (h / 2)))%js = false)
      by (js_to_Q; lra).
    rewrite E1, E2, andb_false_r.
    repeat match goal with
      | |- context [if ?c then _ else _] => destruct c
      end; reflexivity.
Qed.

(** What [insert] does with the objects that have an index.
    [getIndices] names at most one child, and none for an object that
    reaches across a midline.  On an internal node, [insert] hands an
    object with an index to that child alone.  A leaf below
    [MAX_LEVELS] that holds [MAX_OBJECTS] objects and has room for its
    quadrants splits on the next [insert] into four equal quadrants:
    the objects with an index go to the child of that index, the others
    stay at the node, and none is lost. *)
Lemma insert_routes_and_splits :
  (forall t o,
     getIndices t o = [] \/ exists i, i < 4 /\ getIndices t o = [i])
  /\ (forall t bx b_y w h r i,
        boundary t = mkBoundary (Fin bx) (Fin b_y) (Fin w) (Fin h) ->
        (Rect.rx r <= bx + w / 2 <= Rect.rx r + Rect.rw r
         \/ Rect.ry r <= b_y + h / 2 <= Rect.ry r + Rect.rh r)%Q ->
        getIndices t (Rect.to_object r i) = [])
  /\ (forall fuel t o i c c',
        nodes t <> [] -> getIndices t o = [i] ->
        nth_error (nodes t) i = Some c ->
        insert fuel c o = Some (Done c') ->
        exists t',
          insert (S fuel) t o = Some (Done t')
          /\ objects t' = objects t
          /\ nth_error (nodes t') i = Some c'
          /\ forall j, j <> i -> nth_error (nodes t') j = nth_error (nodes t) j)
  /\ (forall fuel t o,
        nodes t = [] -> level t < MAX_LEVELS ->
        length (objects t) = MAX_OBJECTS -> roomy t ->
        MAX_LEVELS - level t < fuel ->
        exists t',
          insert fuel t o = Some (Done t')
          /\ split_around t o t'
          /\ Permutation (all_objects t') (objects t ++ [o])).
Proof.
  split; [exact getIndices_cases |].
  split; [exact straddler_has_no_index |].
  split; [exact insert_internal_routes |].
  intros fuel t o Hleaf Hlvl Hfull Hroomy Hfuel.
  destruct (@insert_leaf_roomy (MAX_LEVELS - level t) fuel t o)
    as (t' & H1 & _ & _ & H2 & H3); auto; try lia.
  exists t'. auto.
Qed.

Lemma insert_routes_and_splits_witness :
  exists t',
    insert 6 arena centre = Some (Done t')
    /\ split_around arena centre t'
    /\ Permutation (all_objects t') (objects arena ++ [centre]).
Proof.
  apply (proj2 (proj2 (proj2 insert_routes_and_splits))).
  - reflexivity.
  - unfold MAX_LEVELS. cbn. lia.
  - reflexivity.
  - exists 0%Q, 0%Q, 800%Q, 600%Q. split; [reflexivity |].
    split; vm_compute; discriminate.
  - unfold MAX_LEVELS. cbn. lia.
Defined.

(** C2 at a failing input.  [field] has split on its eleventh object;
    [centre] overlaps all four of its quadrants, yet [insert] stores it
    in none of them, nor at the node, as it does in a leaf: the call
    returns normally and the tree is as it was. *)
Lemma straddling_object_is_stored_nowhere :
  exists t,
    insert_all 6 field crowd = Some (Done t)
    /\ length (nodes t) = 4
    /\ forallb (fun c => overlaps_boundary centre (boundary c)) (nodes t) = true
    /\ insert 6 t centre = Some (Done t)
    /\ ~ In centre (all_objects t).
Proof.
  eexists. split; [vm_compute; reflexivity |].
  split; [reflexivity |]. split; [vm_compute; reflexivity |].
  split; [vm_compute; reflexivity |].
  cbn. intuition discriminate.
Qed.

(** The quadrants of a 100 x 100 node, as [split] lays them out. *)
Example split_quadrants_of_field :
  exists t,
    insert_all 6 field crowd = Some (Done t)
    /\ map boundary (nodes t)
       = [ibound 50 0 50 50; ibound 0 0 50 50; ibound 0 50 50 50;
          ibound 50 50 50 50]
    /\ objects t = [across].
Proof. eexists. split; [vm_compute; reflexivity |]. split; reflexivity. Qed.

End QuadtreeClaims.

Section QuadtreeDefects.
Import Quadtree Placement Scenes.

(** A query without an index sees the objects of the node alone,
    whatever its children hold. *)
Lemma retrieve_without_index (t : Quadtree) (q : QuadtreeObject) :
  getIndices t q = [] -> retrieve t q = Normal (objects t).
Proof.
  intro E. destruct t as [b objs ns lvl]. cbn [retrieve]. rewrite E.
  destruct (0 <? length (nodes (mkQuadtree b objs ns lvl))); reflexivity.
Qed.

(** With no child to hand an object to, the loop of [insert] fails at
    the first object that has an index, and changes nothing. *)
Lemma redistribute_without_children
    (ins : QuadtreeObject -> Quadtree -> option (outcome Quadtree))
    (indices_of : QuadtreeObject -> list nat) :
  forall rest kept : list QuadtreeObject,
    redistribute ins indices_of kept rest []
    = if forallb (fun o => match indices_of o with [] => true | _ => false end)
                 rest
      then Some (Done (kept ++ rest, []))
      else Some (Raised undefined_insert (kept ++ rest, [])).
Proof.
  induction rest as [| o rest IH]; intro kept.
  - cbn. now rewrite app_nil_r.
  - cbn [redistribute forallb].
    destruct (indices_of o) as [| i indices] eqn:E.
    + cbn [length Nat.ltb Nat.leb andb]. rewrite IH, <- app_assoc. reflexivity.
    + cbn [length Nat.ltb Nat.leb andb insert_each].
      destruct i; reflexivity.
Qed.

(** What [insert] does on a full leaf whose halves are below
    [MIN_SIZE]: [split] is skipped, and the call succeeds only if no
    object of the leaf fits a quadrant. *)
Lemma insert_when_split_is_skipped (fuel : nat) (t : Quadtree)
    (o : QuadtreeObject) :
  nodes t = [] -> level t < MAX_LEVELS -> MAX_OBJECTS <= length (objects t) ->
  ((width (boundary t) / num 2 <? MIN_SIZE)
   || (height (boundary t) / num 2 <? MIN_SIZE))%js = true ->
  insert (S fuel) t o
  = if forallb (stays t) (objects t ++ [o])
    then Some (Done (set_objects t (objects t ++ [o])))
    else Some (Raised undefined_insert (set_objects t (objects t ++ [o]))).
Proof.
  intros Hleaf Hlvl Hfull Hsmall.
  rewrite insert_equation, Hleaf.
  change (0 <? length (@nil Quadtree)) with false. cbv iota zeta.
  set (t1 := set_objects t (objects t ++ [o])).
  assert (Hcond : (MAX_OBJECTS <? length (objects t1))
                  && (level t1 <? MAX_LEVELS) = true).
  { apply andb_true_iff. split; apply Nat.ltb_lt.
    - cbn [t1 set_objects objects]. rewrite length_app. cbn [length]. lia.
    - exact Hlvl. }
  rewrite Hcond.
  change (nodes t1) with (nodes t). rewrite Hleaf.
  change (length (@nil Quadtree) =? 0) with true. cbv iota.
  assert (Hsplit : split t1 = Done t1).
  { unfold split. change (boundary t1) with (boundary t). now rewrite Hsmall. }
  rewrite Hsplit. change (nodes t1) with (nodes t). rewrite Hleaf.
  rewrite redistribute_without_children. cbn [app].
  change (objects t1) with (objects t ++ [o]).
  assert (Hsame : forallb (fun o0 => match getIndices t1 o0 with
                                     | [] => true | _ => false end)
                          (objects t ++ [o])
                  = forallb (stays t) (objects t ++ [o])) by reflexivity.
  rewrite Hsame.
  destruct (forallb (stays t) (objects t ++ [o]));
    destruct t as [b objs ns lvl]; cbn in *; subst ns; reflexivity.
Qed.

(** C1 at a failing input.  All of [crowd] is inserted into [field].
    [wide] and [across] are both among the inserted objects and their
    boxes overlap, but the candidates returned for [across], which
    crosses the midline x = 50, are the objects of the root alone:
    [wide], stored in the top left child, is not among them. *)
Lemma retrieve_misses_overlapping_object :
  exists t,
    insert_all 6 field crowd = Some (Done t)
    /\ In wide crowd /\ In across crowd
    /\ CollisionSystem.checkCollision (as_box across) (as_box wide)
       = (Normal (CollisionSystem.mkResult true
                    (Some (CollisionSystem.mkOverlap (num 4) (num 5)))), [])
    /\ Permutation (all_objects t) crowd
    /\ retrieve t across = Normal [across]
    /\ ~ In wide [across].
Proof.
  eexists. split; [vm_compute; reflexivity |].
  split; [cbn; tauto |]. split; [cbn; tauto |].
  split; [reflexivity |].
  split.
  - cbn. unfold crowd.
    apply Permutation_cons_app with
      (l1 := [iobj 1 11 10 1 1; iobj 2 12 10 1 1; iobj 3 13 10 1 1;
              iobj 4 14 10 1 1; iobj 5 15 10 1 1; wide; iobj 7 67 60 1 1;
              iobj 8 68 60 1 1; iobj 9 69 60 1 1; iobj 10 70 60 1 1])
      (l2 := []).
    rewrite app_nil_r. reflexivity.
  - split; [reflexivity |]. cbn. intuition discriminate.
Qed.

(** C9 at a failing input.  [cell] is 20 x 20, so its halves are below
    [MIN_SIZE] and [split] leaves it alone.  The eleventh object that
    fits a quadrant makes [insert] reach for a child that is not there:
    the call throws, with the objects all kept in the leaf; and so does
    every later one. *)
Lemma insert_throws_when_split_is_skipped :
  (width (boundary cell) / num 2 <? MIN_SIZE)%js = true
  /\ insert_all 6 cell ten_dots
     = Some (Done (mkQuadtree (boundary cell) ten_dots [] 0))
  /\ insert 6 (mkQuadtree (boundary cell) ten_dots [] 0) (dot 11)
     = Some (Raised undefined_insert
               (mkQuadtree (boundary cell) (ten_dots ++ [dot 11]) [] 0))
  /\ insert 6 (mkQuadtree (boundary cell) (ten_dots ++ [dot 11]) [] 0) (dot 12)
     = Some (Raised undefined_insert
               (mkQuadtree (boundary cell) (ten_dots ++ [dot 11; dot 12]) [] 0)).
Proof. repeat split; vm_compute; reflexivity. Qed.

End QuadtreeDefects.

(* ================================================================== *)
(** ** Where boxes are validated *)
(* ================================================================== *)

Section Validation.
Import Quadtree.

Lemma isValidBoundary_iff (b : Boundary) :
  isValidBoundary b = true
  <-> positive (width b) /\ positive (height b)
      /\ finite (x b) /\ finite (y b).
Proof.
  unfold isValidBoundary.
  rewrite !andb_true_iff, !gtb_positive, !isFinite_finite. tauto.
Qed.

Lemma validateBoundingBox_iff (a : CollisionSystem.BoundingBox) :
  CollisionSystem.validateBoundingBox a
  = Abrupt (ErrorMsg "Bounding box dimensions cannot be negative")
  <-> negative (CollisionSystem.width a) \/ negative (CollisionSystem.height a).
Proof.
  unfold CollisionSystem.validateBoundingBox.
  rewrite <- !ltb_negative, <- orb_true_iff.
  destruct (_ || _); split; intro H; try reflexivity; discriminate H.
Qed.

(** C8, as the code has it.  The constructor of [Quadtree] rejects a
    boundary unless its width and height are positive and its x and y
    finite.  [CollisionSystem.checkCollision] rejects a pair of boxes
    exactly when one of the four dimensions is negative, and then
    before the overlap test: it only logs and rethrows.
    [Quadtree.insert] and [Quadtree.retrieve] check nothing: a leaf
    with room left stores any object, and answers any query. *)
Theorem validation_by_entry_point :
  (forall b lvl,
     (positive (width b) /\ positive (height b)
      /\ finite (x b) /\ finite (y b) ->
      new_Quadtree b lvl = Normal (mkQuadtree b [] [] lvl))
     /\ (~ (positive (width b) /\ positive (height b)
            /\ finite (x b) /\ finite (y b)) ->
         new_Quadtree b lvl
         = Abrupt (ErrorMsg "Invalid boundary provided to Quadtree")))
  /\ (forall a b,
        let e := ErrorMsg "Bounding box dimensions cannot be negative" in
        (negative (CollisionSystem.width a) \/ negative (CollisionSystem.height a)
         \/ negative (CollisionSystem.width b) \/ negative (CollisionSystem.height b) ->
         CollisionSystem.checkCollision a b
         = (Abrupt e, [LogError "Collision detection error:" e]))
        /\ (~ (negative (CollisionSystem.width a) \/ negative (CollisionSystem.height a)
               \/ negative (CollisionSystem.width b)
               \/ negative (CollisionSystem.height b)) ->
            CollisionSystem.checkCollision a b
            = (Normal (CollisionSystem.detectAABBCollision a b), [])))
  /\ (forall fuel t o,
        nodes t = [] -> length (objects t) < MAX_OBJECTS ->
        insert (S fuel) t o = Some (Done (set_objects t (objects t ++ [o]))))
  /\ (forall t o, nodes t = [] -> retrieve t o = Normal (objects t)).
Proof.
  split; [| split; [| split]].
  - intros b lvl. unfold new_Quadtree.
    destruct (isValidBoundary b) eqn:E.
    + split; [reflexivity |]. intro H. exfalso. apply H.
      now apply isValidBoundary_iff.
    + split; [| reflexivity]. intro H. apply isValidBoundary_iff in H.
      congruence.
  - intros a b e.
    assert (Ha : ((CollisionSystem.width a <? num 0)
                  || (CollisionSystem.height a <? num 0))%js = true
                 <-> negative (CollisionSystem.width a)
                     \/ negative (CollisionSystem.height a))
      by (rewrite orb_true_iff, !ltb_negative; tauto).
    assert (Hb : ((CollisionSystem.width b <? num 0)
                  || (CollisionSystem.height b <? num 0))%js = true
                 <-> negative (CollisionSystem.width b)
                     \/ negative (CollisionSystem.height b))
      by (rewrite orb_true_iff, !ltb_negative; tauto).
    unfold CollisionSystem.checkCollision, CollisionSystem.validateBoundingBox.
    destruct ((CollisionSystem.width a <? num 0)%js
              || (CollisionSystem.height a <? num 0)%js) eqn:Ea.
    { split; [reflexivity |]. intro H. exfalso. apply H.
      destruct (proj1 Ha eq_refl); tauto. }
    destruct ((CollisionSystem.width b <? num 0)%js
              || (CollisionSystem.height b <? num 0)%js) eqn:Eb.
    { split; [reflexivity |]. intro H. exfalso. apply H.
      destruct (proj1 Hb eq_refl); tauto. }
    split.
    + intro H. exfalso.
      assert (F : false = true) by (destruct H as [H | [H | [H | H]]];
                                    [apply Ha | apply Ha | apply Hb | apply Hb]; tauto).
      discriminate F.
    + intros _. unfold CollisionSystem.detectAABBCollision.
      match goal with
      | |- context [if ?c then CollisionSystem.mkResult true _ else _] =>
          destruct c
      end; reflexivity.
  - intros fuel t o Hleaf Hlen. apply insert_leaf_no_split; auto.
  - intros t o Hleaf. destruct t as [b objs ns lvl]. cbn in Hleaf. subst ns.
    reflexivity.
Qed.

(** C8 as stated fails: an object with a zero width, a negative height
    and non-finite coordinates is inserted without complaint, and a box
    of zero size with a [NaN] coordinate goes through [checkCollision]. *)
Lemma degenerate_boxes_are_accepted :
  insert 6 Scenes.field (mkObject NaN PosInf (num 0) (num (-5)) None)
  = Some (Done (mkQuadtree (boundary Scenes.field)
                  [mkObject NaN PosInf (num 0) (num (-5)) None] [] 0))
  /\ CollisionSystem.checkCollision
       (CollisionSystem.mkBox NaN (num 0) (num 0) (num 0))
       (CollisionSystem.ibox 0 0 10 10)
     = (Normal (CollisionSystem.mkResult false None), []).
Proof. split; reflexivity. Qed.

End Validation.

(* ================================================================== *)
(** ** The engine's loop, frame by frame *)
(* ================================================================== *)

Section EngineFacts.
Import EngineGameLoop EngineFrames.
Context {W : Type}.

Lemma invoke_spec {A : Type} (ev : bool -> Event) (cb : callback A W) (a : A)
    (h : Host W) :
  exists (oe : option Error) (w : W),
    invoke ev cb a h
    = (oe, mkHost w (clock h) (reads h) (pending h) (next_handle h) (console h)
                  (trace h ++ [ev (match oe with Some _ => true | None => false end)])).
Proof.
  unfold invoke. destruct (cb a (world h)) as [w | e w].
  - exists None, w. reflexivity.
  - exists (Some e), w. reflexivity.
Qed.

Lemma drain_spec :
  forall (budget updates : nat) (g : GameLoop W) (h : Host W),
    MAX_UPDATES_PER_FRAME <= updates + budget ->
    exists r, drain budget updates (g, h) = Some r /\ drain_post updates g h r.
Proof.
  induction budget as [| budget IH]; intros updates g h Hb.
  - cbn [drain].
    replace (updates <? MAX_UPDATES_PER_FRAME) with false
      by (symmetry; apply Nat.ltb_ge; lia).
    rewrite andb_false_r.
    exists (Exhausted updates (g, h)). split; [reflexivity |].
    exists 0. cbn [repeat]. rewrite app_nil_r, Nat.add_0_r.
    repeat split; auto.
    + destruct g; reflexivity.
    + right. lia.
    + intros a f Ha _. exists a. split; [exact Ha | auto].
  - cbn [drain].
    destruct ((accumulator g >=? frameTime g)%js) eqn:Ecmp; cbn [andb].
    2:{ exists (Exhausted updates (g, h)). split; [reflexivity |].
        exists 0. cbn [repeat]. rewrite app_nil_r, Nat.add_0_r.
        repeat split; auto.
        + destruct g; reflexivity.
        + intros a f Ha _. exists a. split; [exact Ha | auto]. }
    destruct (updates <? MAX_UPDATES_PER_FRAME) eqn:Eu.
    2:{ exists (Exhausted updates (g, h)). split; [reflexivity |].
        apply Nat.ltb_ge in Eu.
        exists 0. cbn [repeat]. rewrite app_nil_r, Nat.add_0_r.
        repeat split; auto.
        + destruct g; reflexivity.
        + intros a f Ha _. exists a. split; [exact Ha | auto]. }
    apply Nat.ltb_lt in Eu.
    destruct (invoke_spec (FixedUpdate (frameTime g)) (update (callbacks g))
                          (frameTime g) h) as (oe & w & Hinv).
    rewrite Hinv. destruct oe as [e |].
    + (* the callback threw *)
      eexists. split; [reflexivity |].
      unfold stop. cbn [running set_running negb].
      destruct (running g) eqn:Erun; cbn [negb].
      * exists 0, e. cbn [repeat app log console trace clock reads next_handle
                          cancelAnimationFrame pending].
        rewrite Nat.add_0_r. repeat split; auto.
      * exists 0, e. cbn [repeat app log console trace clock reads next_handle].
        rewrite Nat.add_0_r. repeat split; auto; congruence.
    + (* the callback returned *)
      match goal with |- context [drain budget (S updates) (?g1, ?h1)] =>
        destruct (IH (S updates) g1 h1 ltac:(lia)) as (r & Hr & Hpost);
        rewrite Hr; exists r; split; [reflexivity |]
      end.
      destruct r as [n [g' h'] | [g' h']]; cbn [drain_post] in *.
      * destruct Hpost as (m & Hn & Hle & Htr & Hco & Hsame & Hg & Hex & Hnum).
        cbn [trace console frameTime set_accumulator] in *.
        exists (S m). repeat split.
        -- lia.
        -- intros. lia.
        -- rewrite Htr, <- app_assoc. reflexivity.
        -- exact Hco.
        -- apply Hsame. -- apply Hsame. -- apply Hsame. -- apply Hsame.
        -- rewrite Hg. reflexivity.
        -- exact Hex.
        -- intros a f Ha Hf.
           destruct (Hnum (Qred (a - f)) f) as (a' & Ha' & Hpos).
           { cbn [accumulator]. rewrite Ha, Hf. reflexivity. }
           { exact Hf. }
           exists a'. split; [exact Ha' |].
           intros Hf0 Ha0. apply Hpos; [exact Hf0 |].
           rewrite Ha, Hf in Ecmp. js_to_Q. lra.
      * destruct Hpost as (m & e & Hlt & Htr & Hco & Hcl & Hre & Hnh & Hrun).
        cbn [trace console frameTime set_accumulator running rafId pending
             clock reads next_handle] in *.
        exists (S m), e. repeat split; auto.
        -- lia.
        -- rewrite Htr, <- app_assoc. reflexivity.
        -- apply Hrun; assumption.
        -- apply Hrun; assumption.
Qed.

Lemma updateStats_spec (d : number) (g : GameLoop W) (h : Host W) :
  exists hist st w,
    updateStats d (g, h) = Done (set_stats g hist st, set_world h w)
    \/ exists e, updateStats d (g, h) = Raised e (set_stats g hist st, set_world h w).
Proof.
  unfold updateStats.
  match goal with |- context [set_stats g ?hist ?st] => exists hist, st end.
  cbn [callbacks set_stats].
  destruct (onStats (callbacks g)) as [cb |].
  - match goal with |- context [cb ?st (world h)] =>
      destruct (cb st (world h)) as [w | e w] end; exists w.
    + left; reflexivity.
    + right; exists e; reflexivity.
  - exists (world h). left. destruct h; reflexivity.
Qed.

Lemma handlePanic_spec (g : GameLoop W) (h : Host W) :
  exists w,
    handlePanic (g, h) = Done (g, log warning (set_world (record Panic h) w))
    \/ exists e cb,
         onPanic (callbacks g) = Some cb /\ cb tt (world h) = Raised e w
         /\ handlePanic (g, h) = Raised e (g, set_world (record Panic h) w).
Proof.
  unfold handlePanic. destruct (onPanic (callbacks g)) as [cb |].
  - cbn [world record]. destruct (cb tt (world h)) as [w | e w] eqn:E; exists w.
    + left; reflexivity.
    + right; exists e, cb. auto.
  - exists (world h). left. destruct h; reflexivity.
Qed.

Lemma loop_frame (ts : number) (g : GameLoop W) (h : Host W) :
  running g = true ->
  exists r evs lines,
    loop ts (g, h) = Some r
    /\ trace (snd (state_of r)) = trace h ++ evs
    /\ console (snd (state_of r)) = console h ++ lines
    /\ frame ts g h r evs lines.
Proof.
  intro Hrun. unfold loop. rewrite Hrun. cbn [negb].
  set (g1 := set_lastTime g ts).
  assert (Hstats : exists g2 h2,
            (g2 = g1 \/ exists hist st, g2 = set_stats g1 hist st)
            /\ (h2 = h \/ exists w, h2 = set_world h w)
            /\ ((if statsEnabled g1 then updateStats (ts - lastTime g)%js (g1, h)
                 else Done (g1, h)) = Done (g2, h2)
                \/ exists e, (if statsEnabled g1
                              then updateStats (ts - lastTime g)%js (g1, h)
                              else Done (g1, h)) = Raised e (g2, h2))).
  { destruct (statsEnabled g1).
    - destruct (updateStats_spec (ts - lastTime g)%js g1 h)
        as (hist & st & w & [E | [e E]]);
        exists (set_stats g1 hist st), (set_world h w);
        (split; [right; eauto |]); (split; [right; eauto |]); eauto.
    - exists g1, h. auto. }
  destruct Hstats as (g2 & h2 & Hg2 & Hh2 & [E | [e E]]); rewrite E.
  2:{ exists (Raised e (g2, h2)), [], [].
      split; [reflexivity |]. cbn [state_of snd]. rewrite !app_nil_r.
      destruct Hh2 as [-> | [w ->]];
        (split; [reflexivity |]); (split; [reflexivity |]); apply stats_threw. }
  assert (Hsame : trace h2 = trace h /\ console h2 = console h
                  /\ pending h2 = pending h /\ next_handle h2 = next_handle h)
    by (destruct Hh2 as [-> | [w ->]]; repeat split).
  assert (Hg : running g2 = true /\ rafId g2 = rafId g
               /\ frameTime g2 = frameTime g /\ accumulator g2 = accumulator g
               /\ callbacks g2 = callbacks g)
    by (destruct Hg2 as [-> | (hist & st & ->)]; repeat split; assumption).
  destruct Hsame as (Htr2 & Hco2 & Hpe2 & Hnh2).
  destruct Hg as (Hrun2 & Hraf2 & Hft2 & Hacc2 & Hcb2).
  set (g3 := set_accumulator g2 (accumulator g2 + (ts - lastTime g))%js).
  destruct (@drain_spec MAX_UPDATES_PER_FRAME 0 g3 h2 ltac:(lia))
    as (r & Hr & Hpost).
  rewrite Hr.
  destruct r as [n [g4 h4] | [g4 h4]]; cbn [drain_post] in Hpost.
  2:{ (* an update threw *)
      destruct Hpost as (m & e & Hm & Htr & Hco & _ & _ & Hnh & Hstop).
      destruct (Hstop Hrun2) as [Hrun4 Hpe4].
      cbn [frameTime g3 set_accumulator rafId] in *.
      rewrite Hft2 in Htr. rewrite Hraf2, Hpe2 in Hpe4.
      do 3 eexists. split; [reflexivity |]. cbn [state_of snd].
      rewrite Htr, Hco, Htr2, Hco2.
      split; [reflexivity |]. split; [reflexivity |].
      apply update_threw; auto; try lia; congruence. }
  destruct Hpost as (m & Hn & Hle & Htr & Hco & Hsame & Hg4 & Hexit & Hnum).
  cbn [frameTime g3 set_accumulator rafId accumulator] in *.
  rewrite Nat.add_0_l in Hn. subst n.
  specialize (Hle ltac:(lia)).
  rewrite Hft2 in *.
  destruct Hsame as (_ & _ & Hpe4 & Hnh4).
  assert (Hnumeric : forall a f l c,
            accumulator g = Fin a -> frameTime g = Fin f -> lastTime g = Fin l ->
            ts = Fin c ->
            exists a', accumulator g4 = Fin a'
                       /\ ((0 < f)%Q -> (0 <= a)%Q -> (l <= c)%Q -> (0 <= a')%Q)).
  { intros a f l c Ha Hf Hl Hc.
    destruct (Hnum (Qred (a + Qred (c - l))) f) as (a' & Ha' & Hpos).
    - rewrite Hacc2, Ha, Hc, Hl. reflexivity.
    - exact Hf.
    - exists a'. split; [exact Ha' |]. intros Hf0 Ha0 Hlc.
      apply Hpos; [exact Hf0 |]. rewrite !Qred_correct. lra. }
  assert (Hcb4 : callbacks g4 = callbacks g) by (rewrite Hg4; cbn; congruence).
  assert (Hrun4 : running g4 = true) by (rewrite Hg4; cbn; congruence).
  assert (Hraf4 : rafId g4 = rafId g) by (rewrite Hg4; cbn; congruence).
  assert (Hft4 : frameTime g4 = frameTime g) by (rewrite Hg4; cbn; congruence).
  rewrite Hpe2 in Hpe4. rewrite Hnh2 in Hnh4.
  destruct (MAX_UPDATES_PER_FRAME <=? m) eqn:Emax.
  - (* the guard was hit *)
    apply Nat.leb_le in Emax. assert (m = MAX_UPDATES_PER_FRAME) by lia. subst m.
    destruct (handlePanic_spec g4 h4) as (w & [Ep | (e & cb & Hcb & Hthrew & Ep)]);
      rewrite Ep.
    2:{ do 3 eexists. split; [reflexivity |]. cbn [state_of snd set_world trace
                                                       console record].
        rewrite Htr, Hco, Htr2, Hco2, <- app_assoc.
        split; [reflexivity |]. split; [symmetry; apply app_nil_r |].
        rewrite Hcb4 in Hcb. eapply panic_threw; eassumption. }
    set (g5 := set_accumulator g4 (num 0)).
    set (h5 := log warning (set_world (record Panic h4) w)).
    destruct (invoke_spec (Render (accumulator g5 / frameTime g5)%js)
                (render (callbacks g5)) (accumulator g5 / frameTime g5)%js h5)
      as (oe & w' & Hinv).
    rewrite Hinv.
    assert (Hat : forall g', accumulator g' = accumulator g5 ->
              at_render ts g g' MAX_UPDATES_PER_FRAME
                        (accumulator g5 / frameTime g5)%js).
    { intros g' Hacc. unfold at_render. rewrite Hacc.
      change (frameTime g5) with (frameTime g4). rewrite Hft4.
      split; [reflexivity |]. split; [reflexivity |]. split; [lia |].
      intros a f l c _ _ _ _. exists (inject_Z 0). split; [reflexivity |].
      intros. apply Qle_refl. }
    destruct oe as [e |].
    + do 3 eexists. split; [reflexivity |]. cbn [state_of snd].
      unfold stop. change (running g5) with (running g4). rewrite Hrun4.
      cbn [negb snd trace console log cancelAnimationFrame h5
           set_world record pending].
      rewrite Htr, Hco, Htr2, Hco2, <- !app_assoc.
      split; [reflexivity |]. split; [reflexivity |].
      apply (@render_threw _ ts g h e _ _ MAX_UPDATES_PER_FRAME).
      * lia.
      * apply Hat. reflexivity.
      * reflexivity.
      * cbn. rewrite Hraf4, Hpe4. reflexivity.
      * cbn. exact Hnh4.
    + do 3 eexists. split; [reflexivity |]. cbn [state_of snd].
      cbn [requestAnimationFrame snd trace console h5 log set_world record].
      rewrite Htr, Hco, Htr2, Hco2, <- !app_assoc.
      split; [reflexivity |]. split; [reflexivity |].
      apply (@completed _ ts g h _ _ MAX_UPDATES_PER_FRAME).
      * lia.
      * apply Hat. reflexivity.
      * exact Hrun4.
      * cbn. exact Hnh4.
      * cbn. rewrite Hpe4, Hnh4. reflexivity.
  - (* the loop was left by its first condition *)
    apply Nat.leb_gt in Emax.
    destruct Hexit as [Hexit | Hexit]; [| lia].
    cbv beta iota zeta.
    destruct (invoke_spec (Render (accumulator g4 / frameTime g4)%js)
                (render (callbacks g4)) (accumulator g4 / frameTime g4)%js h4)
      as (oe & w' & Hinv).
    rewrite Hinv.
    assert (Hat : forall g', accumulator g' = accumulator g4 ->
              at_render ts g g' m (accumulator g4 / frameTime g4)%js).
    { intros g' Hacc. unfold at_render. rewrite Hft4, Hacc.
      split; [reflexivity |]. split; [lia |]. split; [auto |].
      exact Hnumeric. }
    assert (Hpe : panic_events m = []).
    { unfold panic_events. apply Nat.leb_gt in Emax. now rewrite Emax. }
    assert (Hpl : panic_lines m = []).
    { unfold panic_lines. apply Nat.leb_gt in Emax. now rewrite Emax. }
    destruct oe as [e |].
    + eexists.
      exists (repeat (FixedUpdate (frameTime g) false) m ++ panic_events m
              ++ [Render (accumulator g4 / frameTime g4)%js true]),
             (panic_lines m ++ [LogError "Error in render callback:" e]).
      split; [reflexivity |]. cbn [state_of snd].
      unfold stop. rewrite Hrun4.
      cbn [negb snd trace console log cancelAnimationFrame pending].
      rewrite Htr, Hco, Htr2, Hco2, <- !app_assoc.
      split; [rewrite Hpe; reflexivity |]. split; [rewrite Hpl; reflexivity |].
      apply (@render_threw _ ts g h e _ _ m).
      * lia.
      * apply Hat. reflexivity.
      * reflexivity.
      * cbn. rewrite Hraf4, Hpe4. reflexivity.
      * cbn. exact Hnh4.
    + eexists.
      exists (repeat (FixedUpdate (frameTime g) false) m ++ panic_events m
              ++ [Render (accumulator g4 / frameTime g4)%js false]),
             (panic_lines m).
      split; [reflexivity |]. cbn [state_of snd].
      cbn [requestAnimationFrame snd trace console].
      rewrite Htr, Hco, Htr2, Hco2, <- !app_assoc.
      split; [rewrite Hpe; reflexivity |].
      split; [rewrite Hpl; symmetry; apply app_nil_r |].
      apply (@completed _ ts g h _ _ m).
      * lia.
      * apply Hat. reflexivity.
      * exact Hrun4.
      * cbn. exact Hnh4.
      * cbn. rewrite Hpe4, Hnh4. reflexivity.
Qed.

(** *** Reading the trace of a frame *)

Lemma threw_repeat_fixed (f : number) (m : nat) :
  existsb threw (repeat (FixedUpdate f false) m) = false.
Proof. induction m as [| m IH]; [reflexivity | exact IH]. Qed.

Lemma threw_panic_events (m : nat) : existsb threw (panic_events m) = false.
Proof. unfold panic_events. destruct (_ <=? _); reflexivity. Qed.

Lemma fixed_updates_in_app (l l' : list Event) :
  fixed_updates_in (l ++ l') = fixed_updates_in l + fixed_updates_in l'.
Proof. unfold fixed_updates_in. now rewrite filter_app, length_app. Qed.




Lemma no_render_in_panic_events (m : nat) (alpha : number) (c : bool) :
  ~ In (Render alpha c) (panic_events m).
Proof.
  unfold panic_events. destruct (_ <=? _); cbn; [| tauto].
  intros [H | []]. discriminate H.
Qed.


(** C4 on the engine's loop. *)
Lemma engine_loop_fails_fast (ts : number) (g : GameLoop W) (h : Host W) :
  running g = true ->
  exists r evs lines,
    loop ts (g, h) = Some r
    /\ trace (snd (state_of r)) = trace h ++ evs
    /\ console (snd (state_of r)) = console h ++ lines
    /\ (existsb threw evs = true ->
        exists s',
          r = Done s'
          /\ running (fst s') = false
          /\ pending (snd s')
             = filter (fun k => negb (k =? rafId g)) (pending h)
          /\ (exists label e, In (LogError label e) lines)
          /\ stop s' = s'
          /\ running (fst (start s')) = true
          /\ pending (snd (start s')) = pending (snd s') ++ [next_handle (snd s')]).
Proof.
  intro Hrun.
  destruct (@loop_frame ts g h Hrun) as (r & evs & lines & Hr & Htr & Hco & Hf).
  exists r, evs, lines. repeat (split; [assumption |]).
  assert (Hstopped : forall (g' : GameLoop W) (h' : Host W), running g' = false ->
            stop (g', h') = (g', h')
            /\ running (fst (start (g', h'))) = true
            /\ pending (snd (start (g', h'))) = pending h' ++ [next_handle h']).
  { intros g' h' Hoff. unfold stop, start. rewrite Hoff. cbn. auto. }
  inversion Hf; subst; intro Hthrew.
  - discriminate Hthrew.
  - exists (g', h'). cbn [fst snd].
    destruct (Hstopped g' h') as (S1 & S2 & S3); [assumption |].
    repeat split; auto. eexists _, _. left. reflexivity.
  - rewrite existsb_app, threw_repeat_fixed in Hthrew. discriminate Hthrew.
  - exists (g', h'). cbn [fst snd].
    destruct (Hstopped g' h') as (S1 & S2 & S3); [assumption |].
    repeat split; auto. eexists _, _. apply in_or_app. right. left. reflexivity.
  - rewrite !existsb_app, threw_repeat_fixed, threw_panic_events in Hthrew.
    discriminate Hthrew.
Qed.








End EngineFacts.

(* ================================================================== *)
(** ** The loops without a guard: [SystemsGameLoop] and [Timer] *)
(* ================================================================== *)

Section ClampFacts.
Open Scope Q_scope.

Lemma min_Fin (p q : Q) :
  exists r, JS.min (Fin p) (Fin q) = Fin r /\ r <= p /\ r <= q.
Proof.
  unfold JS.min. destruct (ltb (Fin q) (Fin p)) eqn:E.
  - exists q. js_to_Q. repeat split; lra.
  - exists p. js_to_Q. repeat split; lra.
Qed.


End ClampFacts.

Section SystemsFacts.
Import SystemsGameLoop.
Context {W : Type}.
Open Scope Q_scope.

Lemma fixedTimeStep_value : fixedTimeStep = Fin sixtieth.
Proof. reflexivity. Qed.

Lemma forEach_caught_spec (label : string) (ev : bool -> Event)
    (cbs : list (callback number W)) (arg : number) :
  forall h : Host W,
  exists bs lines w,
    forEach_caught label ev cbs arg h
    = mkHost w (clock h) (reads h) (pending h) (next_handle h)
             (console h ++ lines) (trace h ++ map ev bs)
    /\ length bs = length cbs
    /\ (forall l, In l lines -> exists e, l = LogError label e)
    /\ length lines = length (filter (fun b => b) bs).
Proof.
  induction cbs as [| cb cbs IH]; intro h.
  - exists [], [], (world h). cbn. rewrite !app_nil_r. destruct h.
    repeat split; auto. intros l [].
  - cbn [forEach_caught]. unfold invoke.
    destruct (cb arg (world h)) as [w | e w].
    + destruct (IH (record (ev false) (set_world h w)))
        as (bs & lines & w' & E & Hlen & Hlines & Hcount).
      exists (false :: bs), lines, w'. rewrite E.
      cbn [record set_world clock reads pending next_handle console trace
           map length filter].
      rewrite <- app_assoc. repeat split; auto.
    + destruct (IH (log (LogError label e) (record (ev true) (set_world h w))))
        as (bs & lines & w' & E & Hlen & Hlines & Hcount).
      exists (true :: bs), (LogError label e :: lines), w'. rewrite E.
      cbn [log record set_world clock reads pending next_handle console trace
           map length filter].
      rewrite <- !app_assoc. repeat split; auto.
      intros l [<- | Hl]; [eexists; reflexivity | auto].
Qed.

(** The [while] loop of [tick] leaves after at most [n] rounds when the
    accumulator is below [n + 1] steps. *)
Lemma systems_fixed_updates_spec :
  forall (n fuel : nat) (g : GameLoop W) (h : Host W) (a : Q),
    accumulator g = Fin a -> a < times (S n) sixtieth -> (n < fuel)%nat ->
    exists g' h' m bs lines a',
      fixed_updates fuel (g, h) = Some (g', h')
      /\ (m <= n)%nat
      /\ trace h' = trace h ++ map (FixedUpdate fixedTimeStep) bs
      /\ length bs = (m * length (fixedUpdateCallbacks g))%nat
      /\ console h' = console h ++ lines
      /\ length lines = length (filter (fun b => b) bs)
      /\ pending h' = pending h /\ next_handle h' = next_handle h
      /\ reads h' = reads h /\ clock h' = clock h
      /\ g' = set_timing g (lastTime g) (Fin a')
      /\ a' < sixtieth /\ (0 <= a -> 0 <= a')
      /\ a == a' + times m sixtieth.
Proof.
  induction n as [| n IH]; intros fuel g h a Ha Hlt Hfuel.
  - destruct fuel as [| fuel]; [lia |].
    cbn [times] in Hlt. cbn [fixed_updates].
    rewrite Ha, fixedTimeStep_value.
    replace (Fin a >=? Fin sixtieth)%js with false
      by (symmetry; js_to_Q; lra).
    exists g, h, 0%nat, [], [], a. cbn [map times]. rewrite !app_nil_r.
    repeat split; auto; try lra.
    rewrite <- Ha. destruct g; reflexivity.
  - destruct fuel as [| fuel]; [lia |].
    cbn [fixed_updates]. rewrite Ha, fixedTimeStep_value.
    destruct (Fin a >=? Fin sixtieth)%js eqn:E.
    2:{ exists g, h, 0%nat, [], [], a. cbn [map times]. rewrite !app_nil_r.
        js_to_Q. repeat split; auto; try lra; try lia.
        rewrite <- Ha. destruct g; reflexivity. }
    destruct (forEach_caught_spec "Error in fixed update callback:"
                (FixedUpdate (Fin sixtieth)) (fixedUpdateCallbacks g)
                (Fin sixtieth) h) as (bs & lines & w & Ef & Hlen & _ & Hcount).
    rewrite Ef.
    match goal with |- context [fixed_updates fuel (?g1, ?h1)] =>
      destruct (IH fuel g1 h1 (Qred (a - sixtieth)))
        as (g' & h' & m & bs' & lines' & a' & Hr & Hm & Htr & Hbs & Hco & Hcnt
            & Hpe & Hnh & Hre & Hcl & Hg' & Ha' & Hpos & Hsum)
    end.
    { reflexivity. }
    { rewrite Qred_correct. cbn [times] in *. lra. }
    { lia. }
    rewrite Hr.
    exists g', h', (S m), (bs ++ bs'), (lines ++ lines'), a'.
    cbn [trace console pending next_handle reads clock set_timing
         fixedUpdateCallbacks lastTime] in *.
    rewrite fixedTimeStep_value in *.
    split; [reflexivity |]. split; [lia |].
    split; [rewrite Htr, map_app, app_assoc; reflexivity |].
    split; [rewrite length_app, Hlen, Hbs; cbn; lia |].
    split; [rewrite Hco, app_assoc; reflexivity |].
    split; [rewrite filter_app, !length_app; lia |].
    repeat (split; [assumption |]).
    js_to_Q. cbn [times].
    split; [intro; apply Hpos; lra | lra].
Qed.


(** *** Reading the trace of a [forEach] *)

Lemma fixed_updates_in_map_fixed (x : number) (bs : list bool) :
  fixed_updates_in (map (FixedUpdate x) bs) = length bs.
Proof.
  unfold fixed_updates_in. induction bs as [| b bs IH]; [reflexivity |].
  cbn. now rewrite IH.
Qed.

Lemma fixed_updates_in_map_other (ev : bool -> Event) (bs : list bool) :
  (forall b, is_fixed_update (ev b) = false) ->
  fixed_updates_in (map ev bs) = 0%nat.
Proof.
  intro H. unfold fixed_updates_in. induction bs as [| b bs IH]; [reflexivity |].
  cbn. now rewrite H.
Qed.

Lemma no_panic_in_map (ev : bool -> Event) (bs : list bool) :
  (forall b, ev b <> Panic) -> ~ In Panic (map ev bs).
Proof.
  intros H Hin. apply in_map_iff in Hin. destruct Hin as (b & E & _).
  exact (H b E).
Qed.

Lemma threw_in_map (ev : bool -> Event) (bs : list bool) :
  (forall b, threw (ev b) = b) ->
  length (filter threw (map ev bs)) = length (filter (fun b => b) bs).
Proof.
  intro H. induction bs as [| b bs IH]; [reflexivity |].
  cbn [map filter]. rewrite H. destruct b; cbn [length]; now rewrite IH.
Qed.

(** One frame of [tick] from an accumulator below one step: at most six
    rounds of fixed updates, every exception logged, and the next frame
    requested whatever the callbacks did. *)
Lemma systems_tick_spec (fuel : nat) (g : GameLoop W) (h : Host W) (a l c : Q) :
  isRunning g = true ->
  accumulator g = Fin a -> a < sixtieth ->
  lastTime g = Fin l -> clock h (reads h) = Fin c ->
  (7 <= fuel)%nat ->
  exists g' h' evs lines m a',
    tick fuel (g, h) = Some (g', h')
    /\ trace h' = trace h ++ evs
    /\ console h' = console h ++ lines
    /\ (m <= 6)%nat
    /\ fixed_updates_in evs = (m * length (fixedUpdateCallbacks g))%nat
    /\ ~ In Panic evs
    /\ length lines = length (filter threw evs)
    /\ isRunning g' = true
    /\ animationFrameId g' = Some (next_handle h)
    /\ pending h' = pending h ++ [next_handle h]
    /\ accumulator g' = Fin a' /\ a' < sixtieth.
Proof.
  intros Hrun Ha Hlt Hl Hc Hfuel.
  unfold tick. rewrite Hrun. cbn [negb].
  unfold performance_now. rewrite Hc.
  cbn [set_timing lastTime accumulator updateCallbacks].
  rewrite Ha, Hl.
  destruct (min_Fin (Qred (c - l)) 100) as (d & Ed & _ & Hd).
  change (Fin c - Fin l)%js with (Fin (Qred (c - l))).
  change maxDeltaTime with (Fin 100). rewrite Ed.
  match goal with |- context [forEach_caught ?lab ?ev ?cbs ?arg ?h0] =>
    destruct (forEach_caught_spec lab ev cbs arg h0)
      as (bs1 & lines1 & w1 & E1 & _ & _ & Hc1); rewrite E1
  end.
  cbn [clock reads pending next_handle console trace] in *.
  match goal with |- context [fixed_updates fuel (?g1, ?h1)] =>
    destruct (@systems_fixed_updates_spec 6 fuel g1 h1 (Qred (a + d)))
      as (g2 & h2 & m & bs2 & lines2 & a2 & Hr & Hm & Htr & Hbs & Hco & Hc2
          & Hpe & Hnh & Hre & Hcl & Hg2 & Ha2 & _ & _)
  end.
  { reflexivity. }
  { rewrite Qred_correct. unfold sixtieth in *. cbn [times]. lra. }
  { lia. }
  rewrite Hr.
  cbn [clock reads pending next_handle console trace fixedUpdateCallbacks
       set_timing lastTime] in *.
  match goal with |- context [forEach_caught ?lab ?ev ?cbs ?arg h2] =>
    destruct (forEach_caught_spec lab ev cbs arg h2)
      as (bs3 & lines3 & w3 & E3 & _ & _ & Hc3); rewrite E3
  end.
  cbn [requestAnimationFrame].
  eexists _, _,
    (map (VariableUpdate (Fin d)) bs1 ++ map (FixedUpdate fixedTimeStep) bs2
     ++ map (Render (accumulator g2 / fixedTimeStep)%js) bs3),
    (lines1 ++ lines2 ++ lines3), m, a2.
  split; [reflexivity |].
  cbn [trace console pending next_handle isRunning animationFrameId
       set_animationFrameId accumulator].
  rewrite Htr, Hco, Hpe, Hnh, <- !app_assoc.
  split; [reflexivity |]. split; [reflexivity |]. split; [exact Hm |].
  split.
  { rewrite !fixed_updates_in_app, fixed_updates_in_map_fixed,
      !fixed_updates_in_map_other by reflexivity. lia. }
  split.
  { intro Hin. apply in_app_or in Hin. destruct Hin as [Hin | Hin];
      [revert Hin; apply no_panic_in_map; discriminate |].
    apply in_app_or in Hin. destruct Hin as [Hin | Hin];
      revert Hin; apply no_panic_in_map; discriminate. }
  split.
  { rewrite !filter_app, !length_app, !threw_in_map by reflexivity. lia. }
  rewrite Hg2. cbn. repeat split; auto.
Qed.

End SystemsFacts.

(** The second frame of [LoopScenes.started_systems]. *)
Example systems_second_frame :
  exists g' h' evs lines m a',
    SystemsGameLoop.tick 7 LoopScenes.started_systems = Some (g', h')
    /\ trace h' = [FixedUpdate SystemsGameLoop.fixedTimeStep true] ++ evs
    /\ console h'
       = [LogError "Error in fixed update callback:" (ErrorMsg "boom")] ++ lines
    /\ (m <= 6)%nat
    /\ fixed_updates_in evs = (m * 1)%nat
    /\ ~ In Panic evs
    /\ length lines = length (filter threw evs)
    /\ SystemsGameLoop.isRunning g' = true
    /\ SystemsGameLoop.animationFrameId g' = Some 2%nat
    /\ pending h' = [1; 2]%nat
    /\ SystemsGameLoop.accumulator g' = Fin a' /\ (a' < sixtieth)%Q.
Proof.
  apply (@systems_tick_spec unit 7 (fst LoopScenes.started_systems)
           (snd LoopScenes.started_systems) (10 # 3)%Q 20%Q 40%Q);
    reflexivity.
Qed.

Section TimerFacts.
Import Timer Double.
Context {W : Type}.
Open Scope Q_scope.





(** *** The [while] loop *)




(** With a step so small that subtracting it changes nothing, the loop
    is never left. *)
Lemma timer_fixed_updates_absorbed (t : Timer) :
  (accumulator t >=? fixedTimestep t)%js = true ->
  fsub (accumulator t) (fixedTimestep t) = accumulator t ->
  forall (fuel : nat) (h : Host W), fixed_updates fuel (t, h) = None.
Proof.
  intros C E. induction fuel as [| fuel IH]; intro h; cbn [fixed_updates];
    rewrite C; [reflexivity |].
  rewrite E.
  replace (set_timing t (lastTime t) (accumulator t)) with t
    by (destruct t; reflexivity).
  apply IH.
Qed.

(** *** One frame *)






End TimerFacts.


(* ================================================================== *)
(** ** The loops: exceptions, restarts, catch-up, interpolation *)
(* ================================================================== *)

Section LoopClaims.
Import EngineFrames LoopScenes.

(** C4, as the code has it.  In the engine's loop, a frame in which the
    update or the render callback throws ends normally with the error
    logged, the loop stopped and no frame requested; [stop] then
    changes nothing, and [start] sets the loop running again and
    requests a frame.  In the systems' loop the exception of a callback
    is caught and logged, one line per throw, and the loop goes on: the
    tick completes, the loop is still running and the next frame is
    requested. *)
Theorem callback_exceptions_by_loop :
  (forall (W : Type) (ts : number) (g : EngineGameLoop.GameLoop W) (h : Host W),
     EngineGameLoop.running g = true ->
     exists r evs lines,
       EngineGameLoop.loop ts (g, h) = Some r
       /\ trace (snd (state_of r)) = trace h ++ evs
       /\ console (snd (state_of r)) = console h ++ lines
       /\ (existsb threw evs = true ->
           exists s',
             r = Done s'
             /\ EngineGameLoop.running (fst s') = false
             /\ pending (snd s')
                = filter (fun k => negb (k =? EngineGameLoop.rafId g)) (pending h)
             /\ (exists label e, In (LogError label e) lines)
             /\ EngineGameLoop.stop s' = s'
             /\ EngineGameLoop.running (fst (EngineGameLoop.start s')) = true
             /\ pending (snd (EngineGameLoop.start s'))
                = pending (snd s') ++ [next_handle (snd s')]))
  /\ (forall (W : Type) (fuel : nat) (g : SystemsGameLoop.GameLoop W)
             (h : Host W) (a l c : Q),
        SystemsGameLoop.isRunning g = true ->
        SystemsGameLoop.accumulator g = Fin a -> (a < sixtieth)%Q ->
        SystemsGameLoop.lastTime g = Fin l -> clock h (reads h) = Fin c ->
        7 <= fuel ->
        exists g' h' evs lines,
          SystemsGameLoop.tick fuel (g, h) = Some (g', h')
          /\ trace h' = trace h ++ evs
          /\ console h' = console h ++ lines
          /\ length lines = length (filter threw evs)
          /\ SystemsGameLoop.isRunning g' = true
          /\ SystemsGameLoop.animationFrameId g' = Some (next_handle h)
          /\ pending h' = pending h ++ [next_handle h]).
Proof.
  split.
  - intros W ts g h Hrun. exact (@engine_loop_fails_fast W ts g h Hrun).
  - intros W fuel g h a l c Hrun Ha Hlt Hl Hc Hfuel.
    destruct (@systems_tick_spec W fuel g h a l c Hrun Ha Hlt Hl Hc Hfuel)
      as (g' & h' & evs & lines & m & a' & H1 & H2 & H3 & _ & _ & _ & H4 & H5
          & H6 & H7 & _).
    exists g', h', evs, lines. auto 10.
Qed.

Lemma callback_exceptions_by_loop_witness :
  exists s',
    EngineGameLoop.loop (num 20) (EngineGameLoop.start failing_engine)
    = Some (Done s')
    /\ trace (snd s') = [FixedUpdate (Fin sixtieth) true]
    /\ EngineGameLoop.running (fst s') = false
    /\ pending (snd s') = []
    /\ EngineGameLoop.stop s' = s'
    /\ EngineGameLoop.running (fst (EngineGameLoop.start s')) = true
    /\ pending (snd (EngineGameLoop.start s')) = [2].
Proof.
  destruct (proj1 callback_exceptions_by_loop unit (num 20)
              (fst (EngineGameLoop.start failing_engine))
              (snd (EngineGameLoop.start failing_engine)) eq_refl)
    as (r & evs & lines & Hr & Htr & _ & Hstop).
  change (fst (EngineGameLoop.start failing_engine),
          snd (EngineGameLoop.start failing_engine))
    with (EngineGameLoop.start failing_engine) in Hr.
  vm_compute in Hr. injection Hr as <-.
  cbn in Htr. subst evs.
  destruct (Hstop eq_refl) as (s' & Hs' & H1 & H2 & _ & H3 & H4 & H5).
  exists s'. injection Hs' as <-.
  repeat split; try assumption; try reflexivity.
Defined.

(** C4 as stated fails on the systems' loop: its only fixed-update
    callback throws in the first tick, the error is logged, and the
    loop is still running with the next frame requested. *)
Lemma systems_loop_survives_exception :
  exists g h,
    SystemsGameLoop.start 7 systems = Some (Done (g, h))
    /\ trace h = [FixedUpdate SystemsGameLoop.fixedTimeStep true]
    /\ console h = [LogError "Error in fixed update callback:" (ErrorMsg "boom")]
    /\ SystemsGameLoop.isRunning g = true
    /\ SystemsGameLoop.animationFrameId g = Some 1
    /\ pending h = [1].
Proof. do 2 eexists. repeat split. Qed.

(** C5, as the code has it.  [start] on a loop that is running already
    - returns at once and without a word in the engine's loop,
    - throws "Game loop is already running" in the systems' loop,
    - throws "Timer is already running" in the timer,
    and in the three of them it leaves the loop and the host as they
    were: [lastTime] and [accumulator] are not touched and no frame is
    requested. *)
Theorem start_while_running :
  (forall (W : Type) (s : @EngineGameLoop.System W),
     EngineGameLoop.running (fst s) = true -> EngineGameLoop.start s = s)
  /\ (forall (W : Type) (fuel : nat) (s : @SystemsGameLoop.System W),
        SystemsGameLoop.isRunning (fst s) = true ->
        SystemsGameLoop.start fuel s
        = Some (Raised (ErrorMsg "Game loop is already running") s))
  /\ (forall (W : Type) (fuel : nat) (s : @Timer.System W) (id : nat),
        Timer.rafId (fst s) = Some id ->
        Timer.start fuel s
        = Some (Raised (ErrorMsg "Timer is already running") s)).
Proof.
  split; [| split].
  - intros W [g h] Hrun. cbn [fst] in Hrun. unfold EngineGameLoop.start.
    now rewrite Hrun.
  - intros W fuel [g h] Hrun. cbn [fst] in Hrun. unfold SystemsGameLoop.start.
    now rewrite Hrun.
  - intros W fuel [t h] id Hid. cbn [fst] in Hid. unfold Timer.start.
    now rewrite Hid.
Qed.

Lemma start_while_running_witness :
  SystemsGameLoop.start 7 started_systems
  = Some (Raised (ErrorMsg "Game loop is already running") started_systems).
Proof.
  apply (proj1 (proj2 start_while_running)). reflexivity.
Defined.

(** C5 as stated fails on the engine's loop: the second [start] returns
    normally, with nothing reported anywhere. *)
Lemma engine_start_twice_is_silent :
  EngineGameLoop.running (fst (EngineGameLoop.start engine)) = true
  /\ EngineGameLoop.start (EngineGameLoop.start engine)
     = EngineGameLoop.start engine
  /\ console (snd (EngineGameLoop.start (EngineGameLoop.start engine))) = [].
Proof. repeat split. Qed.

End LoopClaims.

Section CatchUp.
Import EngineFrames LoopScenes.




(** A frame of the engine's loop that comes a second late: ten updates,
    the panic, and a render at 0. *)
Example engine_panics_after_ten_updates :
  exists g h,
    EngineGameLoop.animation_frame (num 1000) (EngineGameLoop.start engine)
    = Some (Done (g, h))
    /\ trace h = repeat (FixedUpdate (Fin sixtieth) false) 10
                 ++ [Panic; Render (num 0) false]
    /\ console h = [warning]
    /\ EngineGameLoop.accumulator g = num 0
    /\ EngineGameLoop.running g = true
    /\ pending h = [2].
Proof. do 2 eexists. split; [vm_compute; reflexivity |]. repeat split. Qed.

(** A frame that comes a second late, at 50 updates per second and with
    a panic callback that throws: the exception leaves [loop], the
    accumulator keeps the 800 ms that the ten updates left of it,
    nothing is logged, nothing is rendered and no frame is requested. *)
Example engine_panic_callback_throws :
  exists g h,
    EngineGameLoop.animation_frame (num 1000)
      (EngineGameLoop.start panicking_engine)
    = Some (Raised (ErrorMsg "boom") (g, h))
    /\ trace h = repeat (FixedUpdate (num 20) false) 10 ++ [Panic]
    /\ console h = []
    /\ EngineGameLoop.accumulator g = num 800
    /\ EngineGameLoop.running g = true
    /\ pending h = [].
Proof. do 2 eexists. split; [vm_compute; reflexivity |]. repeat split. Qed.

End CatchUp.

Section Interpolation.
Import EngineFrames LoopScenes.




End Interpolation.

(** The interval proved for the timer is about the frames that come
    back, and some do not: a timer whose step is 2^-60 ms never leaves
    the loop of its first frame, because the accumulator is 1000/120
    and the step is lost in the rounding of each subtraction. *)
Example timer_tiny_step_never_returns :
  forall fuel, Timer.start fuel LoopScenes.tiny_timer = None.
Proof.
  intro fuel. unfold Timer.start, LoopScenes.tiny_timer.
  unfold Timer.tick, requestAnimationFrame, performance_now.
  cbn -[Timer.fixed_updates Double.fsub Double.fadd Double.fdiv JS.min JS.max
        Timer.MIN_DELTA_TIME Timer.MAX_DELTA_TIME].
  match goal with |- context [Timer.fixed_updates fuel (?t1, ?h1)] =>
    rewrite (@timer_fixed_updates_absorbed unit t1); [reflexivity | |];
    vm_compute; reflexivity
  end.
Qed.
